(** * The real-time zoom compositor of the video preview

    A shallow embedding of [src/components/video-preview.tsx] (the body of
    the first [useEffect]: [calculateZoomParameters], [easeInOutCubic],
    [interpolateZoomState], [renderFrame] and the statistics timer)
    together with the [ZoomEffect] interface of [src/lib/types.ts], of the
    effect list and the clock of [src/components/video-editor.tsx], and of
    the handlers, the time markers and the zoom controls of
    [src/components/timeline.tsx].

    Numbers.  A TypeScript [number] is modelled as an exact rational in
    canonical form ([Qc]): equality is Leibniz equality, the comparisons
    are decidable and every definition below evaluates.  The rounding of
    IEEE-754 doubles, NaN and the infinities are not in this model, so the
    statements are kept to what rounding leaves alone: the expressions the
    source computes, its comparisons, its choices between values, and
    orders that rounding preserves.  Where rounding decides, the smoother
    is also given over binary64 floats (module [Double]) and evaluated
    there. *)

From Stdlib Require Import QArith Qcanon Qcabs Qround Lqa List Bool String PeanoNat Lia.
From Stdlib Require Import PrimFloat.

(** A decimal literal of a float is the nearest double, as in the source. *)
Set Warnings "-inexact-float".
Import ListNotations.

Open Scope Qc_scope.

(** ** Numbers and their comparisons *)

Definition number : Set := Qc.

(** A numeric literal of the source, written as a rational. *)
Definition num (q : Q) : number := Q2Qc q.
Arguments num q%_Q.

(** [a < b], [a > b], [a <= b], [a >= b] of the source, as booleans. *)
Definition ltb (a b : number) : bool :=
  match a ?= b with Lt => true | _ => false end.
Definition gtb (a b : number) : bool := ltb b a.
Definition leb (a b : number) : bool := negb (ltb b a).
Definition geb (a b : number) : bool := negb (ltb a b).

(** ** Data model *)

(** [zoomStyle?: "in-only" | "out-only" | "in-out"] *)
Inductive ZoomStyle : Set := InOnly | OutOnly | InOut.

(** [interface ZoomEffect] of [src/lib/types.ts]. *)
Module ZoomEffect.
Record t : Set := mk
  { id : string;
    startTime : number;
    duration : number;
    level : number;
    centerX : number;
    centerY : number;
    zoomStyle : option ZoomStyle }.
End ZoomEffect.

(** The object returned by [calculateZoomParameters]. *)
Module ZoomParams.
Record t : Set := mk
  { zoom : number;
    centerX : number;
    centerY : number;
    isActive : bool }.
End ZoomParams.

(** The object held by [prevZoomStateRef] and handled by
    [interpolateZoomState]: [{zoom, centerX, centerY}]. *)
Module ZoomState.
Record t : Set := mk
  { zoom : number;
    centerX : number;
    centerY : number }.
End ZoomState.

(** Passing [currentParams] where a [{zoom, centerX, centerY}] is expected:
    the three fields are read, [isActive] is never read back from the
    stored state. *)
Definition asZoomState (p : ZoomParams.t) : ZoomState.t :=
  ZoomState.mk (ZoomParams.zoom p) (ZoomParams.centerX p) (ZoomParams.centerY p).

(** ** The resolver: lines 89-143 *)

(** The predicate handed to [zoomEffects.find]:
    [time >= effect.startTime && time <= effect.startTime + effect.duration]. *)
Definition coversTime (time : number) (effect : ZoomEffect.t) : bool :=
  geb time (ZoomEffect.startTime effect)
  && leb time (ZoomEffect.startTime effect + ZoomEffect.duration effect).

(** [const easeInOutCubic = (t) =>
      t < 0.5 ? 4 * t * t * t : 1 - Math.pow(-2 * t + 2, 3) / 2] *)
Definition easeInOutCubic (t : number) : number :=
  if ltb t (num 0.5)
  then num 4 * t * t * t
  else 1 - (num (-2) * t + num 2) ^ 3 / num 2.

(** [const progress = (time - activeEffect.startTime) / activeEffect.duration].
    With a duration of zero the source has no number here ([NaN] or an
    infinity); [calculateZoomParametersChecked] below tells that case
    apart, and what is stated of the progress assumes a positive
    duration. *)
Definition progressOf (activeEffect : ZoomEffect.t) (time : number) : number :=
  (time - ZoomEffect.startTime activeEffect) / ZoomEffect.duration activeEffect.

(** [const zoomStyle = activeEffect.zoomStyle || 'in-out'] *)
Definition styleOf (activeEffect : ZoomEffect.t) : ZoomStyle :=
  match ZoomEffect.zoomStyle activeEffect with
  | Some s => s
  | None => InOut
  end.

(** Lines 91-93, [zoomEffects.find(...)]: the effect the call returns and
    the array as the call leaves it.  [find] reads the elements in order
    and hands each to the predicate, which reads two of its fields;
    neither writes. *)
Definition findActiveEffect
    (zoomEffects : list ZoomEffect.t) (time : number)
    : option ZoomEffect.t * list ZoomEffect.t :=
  (find (coversTime time) zoomEffects, zoomEffects).

Definition calculateZoomParameters
    (zoomEffects : list ZoomEffect.t) (time : number) : ZoomParams.t :=
  match fst (findActiveEffect zoomEffects time) with
  | None =>
      {| ZoomParams.zoom := 1;
         ZoomParams.centerX := num 0.5;
         ZoomParams.centerY := num 0.5;
         ZoomParams.isActive := false |}
  | Some activeEffect =>
      let progress := progressOf activeEffect time in
      let zoomStyle := styleOf activeEffect in
      let zoomProgress :=
        match zoomStyle with
        | InOut =>
            if ltb progress (num 0.5)
            then easeInOutCubic (progress * num 2)
            else easeInOutCubic ((1 - progress) * num 2)
        | InOnly => easeInOutCubic progress
        | OutOnly => easeInOutCubic (1 - progress)
        end in
      let zoom := 1 + (ZoomEffect.level activeEffect - 1) * zoomProgress in
      {| ZoomParams.zoom := zoom;
         ZoomParams.centerX := ZoomEffect.centerX activeEffect;
         ZoomParams.centerY := ZoomEffect.centerY activeEffect;
         ZoomParams.isActive := true |}
  end.

(** The division of line 105 with a zero divisor told apart: there the
    source gets [NaN] or an infinity instead of a progress. *)
Definition dividedBy (x y : number) : option number :=
  if Qc_eq_bool y 0 then None else Some (x / y).

(** [calculateZoomParameters] with the division of line 105 as
    [dividedBy]: no result when the divisor is zero. *)
Definition calculateZoomParametersChecked
    (zoomEffects : list ZoomEffect.t) (time : number) : option ZoomParams.t :=
  match fst (findActiveEffect zoomEffects time) with
  | None =>
      Some {| ZoomParams.zoom := 1;
              ZoomParams.centerX := num 0.5;
              ZoomParams.centerY := num 0.5;
              ZoomParams.isActive := false |}
  | Some activeEffect =>
      match dividedBy (time - ZoomEffect.startTime activeEffect)
                      (ZoomEffect.duration activeEffect) with
      | None => None
      | Some progress =>
          let zoomStyle := styleOf activeEffect in
          let zoomProgress :=
            match zoomStyle with
            | InOut =>
                if ltb progress (num 0.5)
                then easeInOutCubic (progress * num 2)
                else easeInOutCubic ((1 - progress) * num 2)
            | InOnly => easeInOutCubic progress
            | OutOnly => easeInOutCubic (1 - progress)
            end in
          let zoom :=
            1 + (ZoomEffect.level activeEffect - 1) * zoomProgress in
          Some {| ZoomParams.zoom := zoom;
                  ZoomParams.centerX := ZoomEffect.centerX activeEffect;
                  ZoomParams.centerY := ZoomEffect.centerY activeEffect;
                  ZoomParams.isActive := true |}
      end
  end.

(** ** The smoother: lines 146-156 *)

Definition interpolateZoomState
    (current : ZoomState.t) (previous : option ZoomState.t) (factor : number)
    : ZoomState.t :=
  match previous with
  | None => current
  | Some previous =>
      {| ZoomState.zoom :=
           ZoomState.zoom previous
           + (ZoomState.zoom current - ZoomState.zoom previous) * factor;
         ZoomState.centerX :=
           ZoomState.centerX previous
           + (ZoomState.centerX current - ZoomState.centerX previous) * factor;
         ZoomState.centerY :=
           ZoomState.centerY previous
           + (ZoomState.centerY current - ZoomState.centerY previous) * factor |}
  end.

(** ** The smoother over binary64 floats

    Lines 146-156 once more, with the arithmetic of the doubles the
    source runs on: [+], [-] and [*] round to the nearest double. *)

Module Double.

Record ZoomState : Set := mkZoomState
  { zoom : float;
    centerX : float;
    centerY : float }.

Definition interpolateZoomState
    (current : ZoomState) (previous : option ZoomState) (factor : float)
    : ZoomState :=
  match previous with
  | None => current
  | Some previous =>
      {| zoom :=
           PrimFloat.add (zoom previous)
             (PrimFloat.mul (PrimFloat.sub (zoom current) (zoom previous))
                factor);
         centerX :=
           PrimFloat.add (centerX previous)
             (PrimFloat.mul
                (PrimFloat.sub (centerX current) (centerX previous)) factor);
         centerY :=
           PrimFloat.add (centerY previous)
             (PrimFloat.mul
                (PrimFloat.sub (centerY current) (centerY previous)) factor) |}
  end.

(** A double between two ends, ends included, the ends in either order. *)
Definition between (x y v : float) : bool :=
  (PrimFloat.leb x v && PrimFloat.leb v y)
  || (PrimFloat.leb y v && PrimFloat.leb v x).

End Double.

(** ** The render surface

    The part of [CanvasRenderingContext2D] the loop uses.  The current
    transformation matrix is the affine map
    [(x, y) |-> (a x + c y + e, b x + d y + f)]; [translate] and [scale]
    multiply it on the right, [save] and [restore] push and pop the drawing
    state.  What reaches the surface is kept as a list of paint operations,
    oldest first, each with the matrix it was issued under. *)

Module Canvas.

Record Matrix : Set := mkMatrix
  { a : number; b : number; c : number; d : number; e : number; f : number }.

Definition identity : Matrix := mkMatrix 1 0 0 1 0 0.
Definition translation (tx ty : number) : Matrix := mkMatrix 1 0 0 1 tx ty.
Definition scaling (sx sy : number) : Matrix := mkMatrix sx 0 0 sy 0 0.

(** [compose m n] applies [n] to a point first, then [m]. *)
Definition compose (m n : Matrix) : Matrix :=
  {| a := a m * a n + c m * b n;
     b := b m * a n + d m * b n;
     c := a m * c n + c m * d n;
     d := b m * c n + d m * d n;
     e := a m * e n + c m * f n + e m;
     f := b m * e n + d m * f n + f m |}.

Definition apply (m : Matrix) (p : number * number) : number * number :=
  (a m * fst p + c m * snd p + e m, b m * fst p + d m * snd p + f m).

Inductive Quality : Set := Low | Medium | High.

Record DrawingState : Set := mkDrawingState
  { transform : Matrix;
    imageSmoothingEnabled : bool;
    imageSmoothingQuality : Quality }.

Inductive Paint : Set :=
| Cleared (m : Matrix) (x y w h : number)
| Drawn (st : DrawingState) (frame : number) (dx dy dw dh : number).

Record Context2D : Set := mkContext2D
  { state : DrawingState;
    saved : list DrawingState;
    painted : list Paint }.

(** A context as [getContext("2d", ...)] hands it out. *)
Definition fresh : Context2D :=
  {| state := mkDrawingState identity true Low; saved := []; painted := [] |}.

Definition withState (st : DrawingState) (ctx : Context2D) : Context2D :=
  {| state := st; saved := saved ctx; painted := painted ctx |}.

Definition clearRect (x y w h : number) (ctx : Context2D) : Context2D :=
  {| state := state ctx;
     saved := saved ctx;
     painted := painted ctx ++ [Cleared (transform (state ctx)) x y w h] |}.

Definition save (ctx : Context2D) : Context2D :=
  {| state := state ctx; saved := state ctx :: saved ctx; painted := painted ctx |}.

Definition restore (ctx : Context2D) : Context2D :=
  match saved ctx with
  | [] => ctx
  | st :: rest => {| state := st; saved := rest; painted := painted ctx |}
  end.

Definition multiply (m : Matrix) (ctx : Context2D) : Context2D :=
  withState
    {| transform := compose (transform (state ctx)) m;
       imageSmoothingEnabled := imageSmoothingEnabled (state ctx);
       imageSmoothingQuality := imageSmoothingQuality (state ctx) |} ctx.

Definition translate (tx ty : number) : Context2D -> Context2D :=
  multiply (translation tx ty).
Definition scale (sx sy : number) : Context2D -> Context2D :=
  multiply (scaling sx sy).

Definition setImageSmoothingEnabled (v : bool) (ctx : Context2D) : Context2D :=
  withState
    {| transform := transform (state ctx);
       imageSmoothingEnabled := v;
       imageSmoothingQuality := imageSmoothingQuality (state ctx) |} ctx.

Definition setImageSmoothingQuality (q : Quality) (ctx : Context2D) : Context2D :=
  withState
    {| transform := transform (state ctx);
       imageSmoothingEnabled := imageSmoothingEnabled (state ctx);
       imageSmoothingQuality := q |} ctx.

(** [drawImage(video, dx, dy, dw, dh)]: the frame the video shows, named
    by the video's clock. *)
Definition drawImage (frame dx dy dw dh : number) (ctx : Context2D) : Context2D :=
  {| state := state ctx;
     saved := saved ctx;
     painted := painted ctx ++ [Drawn (state ctx) frame dx dy dw dh] |}.

End Canvas.

(** ** The render loop: lines 159-224 *)

(** What [videoRef.current] and [canvasRef.current] show to a tick. *)
Record Video : Set := { currentTime : number }.
Record Surface : Set := { width : number; height : number }.

Record Host : Set :=
  { video : option Video;
    canvas : option Surface }.

(** The refs of the component, and the host's counter of frame requests
    ([requestAnimationFrame] returns the next handle). *)
Record Refs : Set := mkRefs
  { animationRef : option nat;
    contextRef : option Canvas.Context2D;
    lastTimeRef : number;
    lastVideoTimeRef : number;
    frameCountRef : nat;
    prevZoomStateRef : option ZoomState.t;
    requested : nat }.

(** The refs as [useRef] creates them, with the context the effect stores. *)
Definition mounted (ctx : option Canvas.Context2D) : Refs :=
  {| animationRef := None;
     contextRef := ctx;
     lastTimeRef := 0;
     lastVideoTimeRef := 0;
     frameCountRef := 0;
     prevZoomStateRef := None;
     requested := 0 |}.

(** [Math.abs(videoTimeDelta) > 0.1 ? 0.8 : 0.3] *)
Definition interpolationFactor (videoTimeDelta : number) : number :=
  if gtb (Qcabs videoTimeDelta) (num 0.1) then num 0.8 else num 0.3.

(** Lines 193-217: clear, then draw the frame, zoomed when
    [currentParams.isActive]. *)
Definition paintFrame
    (currentParams : ZoomParams.t) (smoothedParams : ZoomState.t)
    (video : Video) (canvas : Surface) (ctx : Canvas.Context2D)
    : Canvas.Context2D :=
  let ctx := Canvas.clearRect 0 0 (width canvas) (height canvas) ctx in
  if ZoomParams.isActive currentParams then
    let centerX := ZoomState.centerX smoothedParams * width canvas in
    let centerY := ZoomState.centerY smoothedParams * height canvas in
    let zoomLevel := ZoomState.zoom smoothedParams in
    let ctx := Canvas.save ctx in
    let ctx := Canvas.translate centerX centerY ctx in
    let ctx := Canvas.scale zoomLevel zoomLevel ctx in
    let ctx := Canvas.translate (- centerX) (- centerY) ctx in
    let ctx := Canvas.setImageSmoothingEnabled true ctx in
    let ctx := Canvas.setImageSmoothingQuality Canvas.High ctx in
    let ctx :=
      Canvas.drawImage (currentTime video) 0 0 (width canvas) (height canvas) ctx in
    Canvas.restore ctx
  else
    Canvas.drawImage (currentTime video) 0 0 (width canvas) (height canvas) ctx.

Section RenderLoop.

(** The effect closes over the [zoomEffects] prop. *)
Variable zoomEffects : list ZoomEffect.t.

(** The value [smoothedParams] of a tick. *)
Definition smoothedParamsOf (video : Video) (s : Refs) : ZoomState.t :=
  let videoTimeDelta := currentTime video - lastVideoTimeRef s in
  let currentParams := calculateZoomParameters zoomEffects (currentTime video) in
  interpolateZoomState
    (asZoomState currentParams)
    (prevZoomStateRef s)
    (interpolationFactor videoTimeDelta).

Definition renderFrame (timestamp : number) (host : Host) (s : Refs) : Refs :=
  match video host, canvas host, contextRef s with
  | Some video, Some canvas, Some ctx =>
      let currentParams :=
        calculateZoomParameters zoomEffects (currentTime video) in
      let smoothedParams := smoothedParamsOf video s in
      {| animationRef := Some (requested s);
         contextRef := Some (paintFrame currentParams smoothedParams video canvas ctx);
         lastTimeRef := timestamp;
         lastVideoTimeRef := currentTime video;
         frameCountRef := S (frameCountRef s);
         prevZoomStateRef := Some smoothedParams;
         requested := S (requested s) |}
  | _, _, _ =>
      {| animationRef := Some (requested s);
         contextRef := contextRef s;
         lastTimeRef := lastTimeRef s;
         lastVideoTimeRef := lastVideoTimeRef s;
         frameCountRef := frameCountRef s;
         prevZoomStateRef := prevZoomStateRef s;
         requested := S (requested s) |}
  end.

(** The loop: one tick per scheduled frame, oldest first. *)
Fixpoint run (ticks : list (number * Host)) (s : Refs) : Refs :=
  match ticks with
  | [] => s
  | (timestamp, host) :: rest => run rest (renderFrame timestamp host s)
  end.

End RenderLoop.

(** ** Vocabulary of the statements *)

(** The window of an effect: [startTime <= t <= startTime + duration]. *)
Definition inWindow (t : number) (effect : ZoomEffect.t) : Prop :=
  ZoomEffect.startTime effect <= t
  /\ t <= ZoomEffect.startTime effect + ZoomEffect.duration effect.

(** One field of the blend of [interpolateZoomState]. *)
Definition blend (previous current factor : number) : number :=
  previous + (current - previous) * factor.

(** A value between two ends, ends included, the ends in either order. *)
Definition between (x y v : number) : Prop :=
  (x <= v /\ v <= y) \/ (y <= v /\ v <= x).

(** The zoom transform about the point [(cx, cy)]:
    translate to the point, scale, translate back. *)
Definition zoomAbout (cx cy z : number) : Canvas.Matrix :=
  Canvas.compose (Canvas.translation cx cy)
    (Canvas.compose (Canvas.scaling z z) (Canvas.translation (- cx) (- cy))).

(** The data invariant the resolver relies on: a positive duration, a
    level of at least [1] and at most [top], a centre inside the frame. *)
Definition wellFormed (top : number) (effect : ZoomEffect.t) : Prop :=
  0 < ZoomEffect.duration effect
  /\ 1 <= ZoomEffect.level effect /\ ZoomEffect.level effect <= top
  /\ 0 <= ZoomEffect.centerX effect /\ ZoomEffect.centerX effect <= 1
  /\ 0 <= ZoomEffect.centerY effect /\ ZoomEffect.centerY effect <= 1.

(** A zoom state that fills the frame: zoom between [1] and [top], centre
    inside the frame. *)
Definition fillsFrame (top : number) (st : ZoomState.t) : Prop :=
  1 <= ZoomState.zoom st /\ ZoomState.zoom st <= top
  /\ 0 <= ZoomState.centerX st /\ ZoomState.centerX st <= 1
  /\ 0 <= ZoomState.centerY st /\ ZoomState.centerY st <= 1.

(** A host whose video and canvas are both there. *)
Definition ready (host : Host) : bool :=
  match video host, canvas host with
  | Some _, Some _ => true
  | _, _ => false
  end.

(** ** The statistics timer: lines 80-86

    [setRenderStats({ fps: frameCountRef.current, drops: 0 })] and
    [frameCountRef.current = 0]. *)
Record RenderStats : Set := { fps : nat; drops : nat }.

Definition sampleStats (s : Refs) : RenderStats * Refs :=
  ({| fps := frameCountRef s; drops := 0 |},
   {| animationRef := animationRef s;
      contextRef := contextRef s;
      lastTimeRef := lastTimeRef s;
      lastVideoTimeRef := lastVideoTimeRef s;
      frameCountRef := 0;
      prevZoomStateRef := prevZoomStateRef s;
      requested := requested s |}).

(** The in-out branch of lines 117-125, as a function of [progress]. *)
Definition inOutProgress (progress : number) : number :=
  if ltb progress (num 0.5)
  then easeInOutCubic (progress * num 2)
  else easeInOutCubic ((1 - progress) * num 2).

(** ** The editor: [src/components/video-editor.tsx], lines 72-96

    The two pieces of state the three functions read and set. *)

Module Editor.

Record State : Set := mkState
  { zoomEffects : list ZoomEffect.t;
    selectedEffect : option ZoomEffect.t }.

(** [addZoomEffect(startTime)]; [now] is [Date.now().toString()]. *)
Definition addZoomEffect (now : string) (startTime : number) (st : State)
    : State :=
  let newEffect :=
    {| ZoomEffect.id := now;
       ZoomEffect.startTime := startTime;
       ZoomEffect.duration := num 3;
       ZoomEffect.level := num 1.5;
       ZoomEffect.centerX := num 0.5;
       ZoomEffect.centerY := num 0.5;
       ZoomEffect.zoomStyle := Some InOut |} in
  {| zoomEffects := zoomEffects st ++ [newEffect];
     selectedEffect := Some newEffect |}.

(** [updateZoomEffect(updatedEffect)] *)
Definition updateZoomEffect (updatedEffect : ZoomEffect.t) (st : State)
    : State :=
  {| zoomEffects :=
       map (fun effect =>
              if String.eqb (ZoomEffect.id effect) (ZoomEffect.id updatedEffect)
              then updatedEffect
              else effect)
           (zoomEffects st);
     selectedEffect := Some updatedEffect |}.

(** [deleteZoomEffect(effectId)] *)
Definition deleteZoomEffect (effectId : string) (st : State) : State :=
  {| zoomEffects :=
       filter (fun effect => negb (String.eqb (ZoomEffect.id effect) effectId))
              (zoomEffects st);
     selectedEffect :=
       match selectedEffect st with
       | Some selected =>
           if String.eqb (ZoomEffect.id selected) effectId
           then None
           else Some selected
       | None => None
       end |}.

End Editor.

(** The selection, when there is one, is an effect of the collection. *)
Definition selectionListed (st : Editor.State) : Prop :=
  forall selected,
    Editor.selectedEffect st = Some selected ->
    In selected (Editor.zoomEffects st).

(** ** The timeline: [src/components/timeline.tsx], lines 51-134 *)

Module Math.

(** [Math.max] and [Math.min] on two numbers. *)
Definition max (x y : number) : number := if ltb x y then y else x.
Definition min (x y : number) : number := if ltb y x then y else x.

End Math.

Module Timeline.

(** [draggedEdge: "start" | "end" | null] *)
Inductive Edge : Set := StartEdge | EndEdge.

(** The props the handlers read. *)
Record Props : Set := mkProps
  { duration : number;
    zoomEffects : list ZoomEffect.t }.

Record State : Set := mkState
  { isDragging : bool;
    draggedEffect : option string;
    draggedEdge : option Edge;
    timelineWidth : number;
    lastRenderTimeRef : number }.

(** The calls made on the props. *)
Inductive Callback : Set :=
| OnAddEffect (time : number)
| OnSelectEffect (effect : option ZoomEffect.t)
| OnUpdateEffect (effect : ZoomEffect.t).

Definition RENDER_BUFFER_MS : number := num 16.

Section Handlers.

Variable props : Props.
Variable st : State.

Definition timeToPosition (time : number) : number :=
  (time / duration props) * timelineWidth st.

Definition positionToTime (position : number) : number :=
  (position / timelineWidth st) * duration props.

(** The predicate of [zoomEffects.find] in [handleTimelineClick]. *)
Definition clickedOn (clickPosition : number) (effect : ZoomEffect.t) : bool :=
  let startPos := timeToPosition (ZoomEffect.startTime effect) in
  let endPos :=
    timeToPosition (ZoomEffect.startTime effect + ZoomEffect.duration effect) in
  geb clickPosition startPos && leb clickPosition endPos.

(** [handleTimelineClick]; [timelineRef] is the left edge of the bounding
    rectangle of [timelineRef.current], when the element is there. *)
Definition handleTimelineClick (timelineRef : option number) (clientX : number)
    : option Callback :=
  match timelineRef with
  | None => None
  | Some rectLeft =>
      let clickPosition := clientX - rectLeft in
      let clickTime := positionToTime clickPosition in
      match find (clickedOn clickPosition) (zoomEffects props) with
      | Some clickedEffect => Some (OnSelectEffect (Some clickedEffect))
      | None => Some (OnAddEffect clickTime)
      end
  end.

(** [handleEffectMouseDown(e, effectId, edge)] *)
Definition handleEffectMouseDown (effectId : string) (edge : option Edge)
    : State * option Callback :=
  ({| isDragging := true;
      draggedEffect := Some effectId;
      draggedEdge := edge;
      timelineWidth := timelineWidth st;
      lastRenderTimeRef := lastRenderTimeRef st |},
   match find (fun effect => String.eqb (ZoomEffect.id effect) effectId)
              (zoomEffects props) with
   | Some effect => Some (OnSelectEffect (Some effect))
   | None => None
   end).

(** Lines 110-125: the copy of the effect a move of the mouse makes. *)
Definition dragged (edge : option Edge) (mouseTime : number)
    (effect : ZoomEffect.t) : ZoomEffect.t :=
  match edge with
  | Some StartEdge =>
      let newStartTime :=
        Math.max 0
          (Math.min mouseTime
             (ZoomEffect.startTime effect + ZoomEffect.duration effect
              - num 0.5)) in
      {| ZoomEffect.id := ZoomEffect.id effect;
         ZoomEffect.startTime := newStartTime;
         ZoomEffect.duration :=
           ZoomEffect.startTime effect + ZoomEffect.duration effect
           - newStartTime;
         ZoomEffect.level := ZoomEffect.level effect;
         ZoomEffect.centerX := ZoomEffect.centerX effect;
         ZoomEffect.centerY := ZoomEffect.centerY effect;
         ZoomEffect.zoomStyle := ZoomEffect.zoomStyle effect |}
  | Some EndEdge =>
      let newDuration :=
        Math.max (num 0.5) (mouseTime - ZoomEffect.startTime effect) in
      {| ZoomEffect.id := ZoomEffect.id effect;
         ZoomEffect.startTime := ZoomEffect.startTime effect;
         ZoomEffect.duration :=
           Math.min newDuration (duration props - ZoomEffect.startTime effect);
         ZoomEffect.level := ZoomEffect.level effect;
         ZoomEffect.centerX := ZoomEffect.centerX effect;
         ZoomEffect.centerY := ZoomEffect.centerY effect;
         ZoomEffect.zoomStyle := ZoomEffect.zoomStyle effect |}
  | None =>
      let newStartTime :=
        Math.max 0
          (Math.min (mouseTime - ZoomEffect.duration effect / num 2)
             (duration props - ZoomEffect.duration effect)) in
      {| ZoomEffect.id := ZoomEffect.id effect;
         ZoomEffect.startTime := newStartTime;
         ZoomEffect.duration := ZoomEffect.duration effect;
         ZoomEffect.level := ZoomEffect.level effect;
         ZoomEffect.centerX := ZoomEffect.centerX effect;
         ZoomEffect.centerY := ZoomEffect.centerY effect;
         ZoomEffect.zoomStyle := ZoomEffect.zoomStyle effect |}
  end.

Definition touchRenderTime (now : number) : State :=
  {| isDragging := isDragging st;
     draggedEffect := draggedEffect st;
     draggedEdge := draggedEdge st;
     timelineWidth := timelineWidth st;
     lastRenderTimeRef := now |}.

(** [handleMouseMove]; [now] is [performance.now()].  A string is falsy
    when it is empty. *)
Definition handleMouseMove (timelineRef : option number) (now clientX : number)
    : State * option Callback :=
  match isDragging st, draggedEffect st, timelineRef with
  | true, Some draggedId, Some rectLeft =>
      if String.eqb draggedId EmptyString then (st, None)
      else if ltb (now - lastRenderTimeRef st) RENDER_BUFFER_MS then (st, None)
      else
        let mousePosition := clientX - rectLeft in
        let mouseTime := positionToTime mousePosition in
        match find (fun effect => String.eqb (ZoomEffect.id effect) draggedId)
                   (zoomEffects props) with
        | None => (touchRenderTime now, None)
        | Some effect =>
            (touchRenderTime now,
             Some (OnUpdateEffect (dragged (draggedEdge st) mouseTime effect)))
        end
  | _, _, _ => (st, None)
  end.

(** [handleMouseUp] *)
Definition handleMouseUp : State :=
  {| isDragging := false;
     draggedEffect := None;
     draggedEdge := None;
     timelineWidth := timelineWidth st;
     lastRenderTimeRef := lastRenderTimeRef st |}.

End Handlers.

End Timeline.

(** ** The time markers of the timeline: lines 145-172 *)

Module Markers.

(** The loop counter [i] as a number. *)
Definition ofNat (i : nat) : number := Q2Qc (inject_Z (Z.of_nat i)).

(** Lines 147-155. *)
Definition markerInterval (duration : number) : nat :=
  if gtb duration (num 120) then 10
  else if gtb duration (num 60) then 5
  else if gtb duration (num 30) then 2
  else 1.

(** A pushed [<div>]: its key, whether it has the style and the label of
    a major marker, and the percentage of its [left]. *)
Record Marker : Set := mkMarker
  { key : nat;
    isMajor : bool;
    leftPercent : number }.

(** The loop [for (let i = 0; i <= duration; i++)] from the counter [i]
    on, for at most [fuel] rounds. *)
Fixpoint markersFrom (duration : number) (fuel i : nat) : list Marker :=
  match fuel with
  | O => []
  | S fuel =>
      if leb (ofNat i) duration then
        let isMajor := Nat.eqb (i mod markerInterval duration) 0 in
        (if isMajor || leb duration (num 20)
         then [mkMarker i isMajor ((ofNat i / duration) * num 100)]
         else [])
        ++ markersFrom duration fuel (S i)
      else []
  end.

(** Enough rounds for the loop to end by its own test. *)
Definition rounds (duration : number) : nat :=
  S (Z.to_nat (Qfloor duration)).

Definition timeMarkers (duration : number) : list Marker :=
  markersFrom duration (rounds duration) 0.

End Markers.

(** ** The zoom controls: [src/components/timeline.tsx], lines 263-270
    and 335-340 *)

Module ZoomControls.

(** The bounding rectangle of the clicked box. *)
Record Rect : Set := mkRect
  { left : number; top : number; width : number; height : number }.

(** The click handler of the centre box with [handleZoomCenterChange]:
    the effect handed to [onUpdate]. *)
Definition centerClicked (effect : ZoomEffect.t) (rect : Rect)
    (clientX clientY : number) : ZoomEffect.t :=
  let x := (clientX - left rect) / width rect in
  let y := (clientY - top rect) / height rect in
  {| ZoomEffect.id := ZoomEffect.id effect;
     ZoomEffect.startTime := ZoomEffect.startTime effect;
     ZoomEffect.duration := ZoomEffect.duration effect;
     ZoomEffect.level := ZoomEffect.level effect;
     ZoomEffect.centerX := x;
     ZoomEffect.centerY := y;
     ZoomEffect.zoomStyle := ZoomEffect.zoomStyle effect |}.

End ZoomControls.

(** ** The clock of the editor: [src/components/video-editor.tsx],
    lines 38-57 and 104-112 *)

Module Playback.

(** What the handlers read and set of [videoRef.current]. *)
Record VideoElement : Set := mkVideoElement
  { currentTime : number;
    paused : bool }.

Record State : Set := mkState
  { shownTime : number;
    lastUpdateTimeRef : number;
    updateBufferMsRef : number }.

(** The state as [useState] and [useRef] create it. *)
Definition initial : State :=
  {| shownTime := 0; lastUpdateTimeRef := 0; updateBufferMsRef := num 30 |}.

(** [handleTimeUpdate]; [now] is [performance.now()]. *)
Definition handleTimeUpdate (videoRef : option VideoElement) (now : number)
    (st : State) : State :=
  match videoRef with
  | None => st
  | Some videoElement =>
      if gtb (now - lastUpdateTimeRef st) (updateBufferMsRef st) then
        {| shownTime := currentTime videoElement;
           lastUpdateTimeRef := now;
           updateBufferMsRef :=
             if paused videoElement then num 16 else num 30 |}
      else st
  end.

(** [handleSeek], from the parsed [seekTime] on. *)
Definition handleSeek (videoRef : option VideoElement) (seekTime : number)
    (st : State) : option VideoElement * State :=
  match videoRef with
  | None => (None, st)
  | Some videoElement =>
      (Some {| currentTime := seekTime; paused := paused videoElement |},
       {| shownTime := seekTime;
          lastUpdateTimeRef := 0;
          updateBufferMsRef := updateBufferMsRef st |})
  end.

End Playback.

(** An effect that sits on a timeline of length [videoDuration]: it
    starts at or after [0], lasts at least half a second and ends at or
    before the end of the video. *)
Definition onTimeline (videoDuration : number) (effect : ZoomEffect.t) : Prop :=
  0 <= ZoomEffect.startTime effect
  /\ num 0.5 <= ZoomEffect.duration effect
  /\ ZoomEffect.startTime effect + ZoomEffect.duration effect <= videoDuration.

(** * Properties *)

(** ** Exact arithmetic: from canonical rationals to [Q] *)

Lemma this_plus (x y : Qc) : (this (x + y) == this x + this y)%Q.
Proof. apply Qred_correct. Qed.

Lemma this_mult (x y : Qc) : (this (x * y) == this x * this y)%Q.
Proof. apply Qred_correct. Qed.

Lemma this_opp (x : Qc) : (this (- x) == - this x)%Q.
Proof. apply Qred_correct. Qed.

Lemma this_minus (x y : Qc) : (this (x - y) == this x - this y)%Q.
Proof. unfold Qcminus. rewrite this_plus, this_opp. reflexivity. Qed.

Lemma this_inv (x : Qc) : (this (/ x) == / this x)%Q.
Proof. apply Qred_correct. Qed.

Lemma this_div (x y : Qc) : (this (x / y) == this x / this y)%Q.
Proof. unfold Qcdiv. rewrite this_mult, this_inv. reflexivity. Qed.

Lemma this_Q2Qc (q : Q) : (this (Q2Qc q) == q)%Q.
Proof. apply Qred_correct. Qed.

Lemma this_cube (x : Qc) : (this (x ^ 3) == this x * this x * this x)%Q.
Proof.
  replace (x ^ 3) with (x * x * x) by (simpl; ring).
  rewrite !this_mult. reflexivity.
Qed.

(** [lra] does not read a division; the curve only divides by [2]. *)
Lemma Qdiv_by_2 (x : Q) : (x / 2 == x * (1 # 2))%Q.
Proof. field. Qed.

Lemma Qc_eq_this (x y : Qc) : x = y <-> (this x == this y)%Q.
Proof.
  split; [intros ->; reflexivity | apply Qc_is_canon].
Qed.

(** Moves an order or equality statement on [number] to [Q], where [lra]
    and [nra] apply. *)
Ltac to_Q :=
  unfold num, number in *;
  rewrite ?Qc_eq_this in *;
  unfold Qcle, Qclt in *;
  repeat rewrite ?this_plus, ?this_minus, ?this_mult, ?this_opp, ?this_div,
                 ?this_inv, ?this_cube, ?this_Q2Qc, ?Qdiv_by_2 in *.

(** ** The comparisons *)

Lemma ltb_lt (a b : number) : ltb a b = true <-> a < b.
Proof.
  unfold ltb, Qclt, Qccompare. rewrite Qlt_alt.
  destruct (this a ?= this b)%Q; split; congruence.
Qed.

Lemma ltb_ge (a b : number) : ltb a b = false <-> b <= a.
Proof.
  unfold ltb, Qcle, Qccompare.
  rewrite Qle_alt, <- (Qcompare_antisym (this a) (this b)).
  destruct (this a ?= this b)%Q; simpl; split; congruence.
Qed.

Lemma gtb_gt (a b : number) : gtb a b = true <-> b < a.
Proof. apply ltb_lt. Qed.

Lemma leb_le (a b : number) : leb a b = true <-> a <= b.
Proof. unfold leb. rewrite negb_true_iff. apply ltb_ge. Qed.

Lemma geb_ge (a b : number) : geb a b = true <-> b <= a.
Proof. unfold geb. rewrite negb_true_iff. apply ltb_ge. Qed.

Lemma ltb_cases (a b : number) :
  (a < b /\ ltb a b = true) \/ (b <= a /\ ltb a b = false).
Proof.
  destruct (ltb a b) eqn:E.
  - left. split; [now apply ltb_lt | reflexivity].
  - right. split; [now apply ltb_ge | reflexivity].
Qed.

Lemma positive_not_zero (x : number) : 0 < x -> x <> 0.
Proof. intros H. apply not_eq_sym. now apply Qclt_not_eq. Qed.

(** ** Cubes in [Q] *)

Lemma Qcube_le (x y : Q) : (0 <= x -> x <= y -> x * x * x <= y * y * y)%Q.
Proof.
  intros Hx Hxy.
  assert (0 <= (y - x) * (x * x))%Q by (apply Qmult_le_0_compat; nra).
  assert (0 <= (y - x) * (x * y))%Q by (apply Qmult_le_0_compat; nra).
  assert (0 <= (y - x) * (y * y))%Q by (apply Qmult_le_0_compat; nra).
  lra.
Qed.

(** ** The easing curve *)

Lemma ease_below (t : number) :
  t < num 0.5 -> easeInOutCubic t = num 4 * t * t * t.
Proof.
  intros H. unfold easeInOutCubic. apply ltb_lt in H. now rewrite H.
Qed.

Lemma ease_above (t : number) :
  num 0.5 <= t -> easeInOutCubic t = 1 - (num (-2) * t + num 2) ^ 3 / num 2.
Proof.
  intros H. unfold easeInOutCubic. apply ltb_ge in H. now rewrite H.
Qed.

Lemma ease_0 : easeInOutCubic 0 = 0.
Proof. apply Qc_is_canon. reflexivity. Qed.

Lemma ease_1 : easeInOutCubic 1 = 1.
Proof. apply Qc_is_canon. reflexivity. Qed.

Lemma ease_half : easeInOutCubic (num 0.5) = num 0.5.
Proof. apply Qc_is_canon. reflexivity. Qed.

Lemma ease_range (t : number) :
  0 <= t -> t <= 1 -> 0 <= easeInOutCubic t /\ easeInOutCubic t <= 1.
Proof.
  intros H0 H1.
  destruct (ltb_cases t (num 0.5)) as [[H _] | [H _]].
  - rewrite (ease_below t H). to_Q.
    pose proof (Qcube_le 0 (this t) ltac:(lra) ltac:(lra)).
    pose proof (Qcube_le (this t) 0.5 ltac:(lra) ltac:(lra)).
    split; lra.
  - rewrite (ease_above t H). to_Q.
    pose proof (Qcube_le 0 (-2 * this t + 2) ltac:(lra) ltac:(lra)).
    pose proof (Qcube_le (-2 * this t + 2) 1 ltac:(lra) ltac:(lra)).
    split; lra.
Qed.

Lemma ease_monotone (x y : number) :
  0 <= x -> x <= y -> y <= 1 -> easeInOutCubic x <= easeInOutCubic y.
Proof.
  intros H0 Hxy H1.
  destruct (ltb_cases x (num 0.5)) as [[Hx _] | [Hx _]];
    destruct (ltb_cases y (num 0.5)) as [[Hy _] | [Hy _]].
  - rewrite (ease_below x Hx), (ease_below y Hy). to_Q.
    pose proof (Qcube_le (this x) (this y) ltac:(lra) ltac:(lra)). lra.
  - rewrite (ease_below x Hx), (ease_above y Hy). to_Q.
    pose proof (Qcube_le (this x) 0.5 ltac:(lra) ltac:(lra)).
    pose proof (Qcube_le (-2 * this y + 2) 1 ltac:(lra) ltac:(lra)). lra.
  - to_Q. lra.
  - rewrite (ease_above x Hx), (ease_above y Hy). to_Q.
    pose proof (Qcube_le (-2 * this y + 2) (-2 * this x + 2)
                  ltac:(lra) ltac:(lra)). lra.
Qed.

(** C5. [easeInOutCubic] is [4 * t * t * t] below one half and
    [1 - (-2 t + 2)^3 / 2] from one half on; on [0, 1] its values stay in
    [0, 1]; it takes [0] to [0], [1] to [1] and [0.5] to [0.5]; and it is
    increasing on [0, 1]: of two arguments the later one never has the
    smaller value. *)
Theorem easeInOutCubic_curve :
  (forall t, t < num 0.5 -> easeInOutCubic t = num 4 * t * t * t)
  /\ (forall t, num 0.5 <= t ->
        easeInOutCubic t = 1 - (num (-2) * t + num 2) ^ 3 / num 2)
  /\ (forall t, 0 <= t -> t <= 1 ->
        0 <= easeInOutCubic t /\ easeInOutCubic t <= 1)
  /\ easeInOutCubic 0 = 0
  /\ easeInOutCubic 1 = 1
  /\ easeInOutCubic (num 0.5) = num 0.5
  /\ (forall x y, 0 <= x -> x <= y -> y <= 1 ->
        easeInOutCubic x <= easeInOutCubic y).
Proof.
  split; [| split; [| split; [| split; [| split; [| split]]]]].
  - exact ease_below.
  - exact ease_above.
  - exact ease_range.
  - exact ease_0.
  - exact ease_1.
  - exact ease_half.
  - exact ease_monotone.
Qed.

(** The curve at a quarter and at three quarters, inside its range and in
    order. *)
Lemma easeInOutCubic_curve_witness :
  easeInOutCubic (num 0.25) = num (1 # 16)
  /\ easeInOutCubic (num 0.75) = num (15 # 16)
  /\ (0 <= easeInOutCubic (num 0.25) /\ easeInOutCubic (num 0.25) <= 1)
  /\ easeInOutCubic (num 0.25) <= easeInOutCubic (num 0.75).
Proof.
  destruct easeInOutCubic_curve as (Hlo & Hhi & Hrange & _ & _ & _ & Hinc).
  split; [| split; [| split]].
  - rewrite (Hlo (num 0.25)) by reflexivity. apply Qc_is_canon. reflexivity.
  - rewrite (Hhi (num 0.75)) by (vm_compute; discriminate).
    apply Qc_is_canon. reflexivity.
  - apply Hrange; vm_compute; discriminate.
  - apply Hinc; vm_compute; discriminate.
Defined.

(** ** The smoother *)

Lemma ZoomState_eq (s1 s2 : ZoomState.t) :
  ZoomState.zoom s1 = ZoomState.zoom s2 ->
  ZoomState.centerX s1 = ZoomState.centerX s2 ->
  ZoomState.centerY s1 = ZoomState.centerY s2 ->
  s1 = s2.
Proof. destruct s1, s2. simpl. intros -> -> ->. reflexivity. Qed.

Lemma interpolate_fields (current previous : ZoomState.t) (factor : number) :
  let out := interpolateZoomState current (Some previous) factor in
  ZoomState.zoom out
    = blend (ZoomState.zoom previous) (ZoomState.zoom current) factor
  /\ ZoomState.centerX out
    = blend (ZoomState.centerX previous) (ZoomState.centerX current) factor
  /\ ZoomState.centerY out
    = blend (ZoomState.centerY previous) (ZoomState.centerY current) factor.
Proof. simpl. auto. Qed.

Lemma blend_one (p c : number) : blend p c 1 = p + (c - p).
Proof. unfold blend, number in *. ring. Qed.

Lemma blend_zero (p c : number) : blend p c 0 = p.
Proof. unfold blend, number in *. ring. Qed.


(** With a factor in [0, 1] the blend stays between its two ends. *)
Lemma blend_between (p c factor : number) :
  0 <= factor -> factor <= 1 ->
  (p <= c -> p <= blend p c factor /\ blend p c factor <= c)
  /\ (c <= p -> c <= blend p c factor /\ blend p c factor <= p).
Proof.
  intros H0 H1. unfold blend. split; intros Hpc; to_Q.
  - assert (0 <= (this c - this p) * this factor)%Q
      by (apply Qmult_le_0_compat; lra).
    assert (0 <= (this c - this p) * (1 - this factor))%Q
      by (apply Qmult_le_0_compat; lra).
    split; lra.
  - assert (0 <= (this p - this c) * this factor)%Q
      by (apply Qmult_le_0_compat; lra).
    assert (0 <= (this p - this c) * (1 - this factor))%Q
      by (apply Qmult_le_0_compat; lra).
    split; lra.
Qed.

Lemma blend_is_between (p c factor : number) :
  0 <= factor -> factor <= 1 -> between p c (blend p c factor).
Proof.
  intros H0 H1. destruct (blend_between p c factor H0 H1) as [Hup Hdown].
  destruct (Qclt_le_dec c p) as [Hlt | Hle].
  - right. apply Hdown. now apply Qclt_le_weak.
  - left. now apply Hup.
Qed.

(** Factor [1] on doubles.  From [centerX = 0.9] towards [centerX = 0.1]
    line 152 computes [0.9 + (0.1 - 0.9) * 1]: the difference is rounded,
    and the sum comes out at [0.09999999999999998], one step below the
    target.  The state returned is [previous + (target - previous)], and
    not the target. *)
Lemma interpolateZoomState_factor_one_misses_target :
  let previous := Double.mkZoomState 1%float 0.9%float 0.5%float in
  let target := Double.mkZoomState 1%float 0.1%float 0.5%float in
  let out := Double.interpolateZoomState target (Some previous) 1%float in
  PrimFloat.eqb (Double.centerX out) 0.09999999999999998%float = true
  /\ PrimFloat.eqb (Double.centerX out)
       (PrimFloat.add (Double.centerX previous)
          (PrimFloat.sub (Double.centerX target) (Double.centerX previous)))
     = true
  /\ PrimFloat.eqb (Double.centerX out) (Double.centerX target) = false
  /\ out <> target.
Proof.
  intros previous target out.
  split; [vm_compute; reflexivity |].
  split; [vm_compute; reflexivity |].
  assert (H : PrimFloat.eqb (Double.centerX out) (Double.centerX target) = false)
    by (vm_compute; reflexivity).
  split; [exact H |].
  intros E. rewrite E in H. vm_compute in H. discriminate.
Qed.

(** C3. Each of [zoom], [centerX] and [centerY] of the result is
    [previous + (target - previous) * factor]; without a previous state the
    target comes back as it is, whatever the factor; factor [1] gives
    [previous + (target - previous)] in each field, the target up to the
    rounding of that difference and that sum; factor [0] gives the previous
    state. *)
Theorem interpolateZoomState_blend :
  forall (target previous : ZoomState.t) (factor : number),
    interpolateZoomState target (Some previous) factor
      = {| ZoomState.zoom :=
             ZoomState.zoom previous
             + (ZoomState.zoom target - ZoomState.zoom previous) * factor;
           ZoomState.centerX :=
             ZoomState.centerX previous
             + (ZoomState.centerX target - ZoomState.centerX previous) * factor;
           ZoomState.centerY :=
             ZoomState.centerY previous
             + (ZoomState.centerY target - ZoomState.centerY previous) * factor |}
    /\ interpolateZoomState target None factor = target
    /\ interpolateZoomState target (Some previous) 1
        = {| ZoomState.zoom :=
               ZoomState.zoom previous
               + (ZoomState.zoom target - ZoomState.zoom previous);
             ZoomState.centerX :=
               ZoomState.centerX previous
               + (ZoomState.centerX target - ZoomState.centerX previous);
             ZoomState.centerY :=
               ZoomState.centerY previous
               + (ZoomState.centerY target - ZoomState.centerY previous) |}
    /\ interpolateZoomState target None 1 = target
    /\ interpolateZoomState target (Some previous) 0 = previous.
Proof.
  intros target previous factor.
  split; [reflexivity |].
  split; [reflexivity |].
  split; [| split; [reflexivity |]].
  - destruct (interpolate_fields target previous 1) as (Hz & Hx & Hy).
    apply ZoomState_eq; [rewrite Hz | rewrite Hx | rewrite Hy]; apply blend_one.
  - destruct (interpolate_fields target previous 0) as (Hz & Hx & Hy).
    apply ZoomState_eq; [rewrite Hz | rewrite Hx | rewrite Hy]; apply blend_zero.
Qed.




(** ** The effect lookup *)

Lemma coversTime_inWindow (t : number) (effect : ZoomEffect.t) :
  coversTime t effect = true <-> inWindow t effect.
Proof.
  unfold coversTime, inWindow.
  rewrite andb_true_iff, geb_ge, leb_le. reflexivity.
Qed.

Lemma coversTime_outside (t : number) (effect : ZoomEffect.t) :
  coversTime t effect = false <-> ~ inWindow t effect.
Proof.
  rewrite <- coversTime_inWindow. destruct (coversTime t effect); split;
    congruence.
Qed.

Section Find.

Context {A : Type} (p : A -> bool).

Lemma find_skips (before after : list A) (x : A) :
  (forall y, In y before -> p y = false) ->
  p x = true ->
  find p (before ++ x :: after) = Some x.
Proof.
  induction before as [| y before IH]; intros Hbefore Hx; simpl.
  - now rewrite Hx.
  - rewrite (Hbefore y) by now left.
    apply IH; [| assumption]. intros z Hz. apply Hbefore. now right.
Qed.

Lemma find_splits (l : list A) (x : A) :
  find p l = Some x ->
  exists before after,
    l = before ++ x :: after
    /\ p x = true
    /\ forall y, In y before -> p y = false.
Proof.
  induction l as [| y l IH]; simpl; [discriminate |].
  destruct (p y) eqn:Hy.
  - intros [= ->]. exists [], l. repeat split; auto. intros z [].
  - intros Hfind. destruct (IH Hfind) as (before & after & -> & Hx & Hbefore).
    exists (y :: before), after. repeat split; auto.
    intros z [<- | Hz]; auto.
Qed.

Lemma find_nothing (l : list A) :
  find p l = None <-> forall y, In y l -> p y = false.
Proof.
  split.
  - intros Hfind y Hy. exact (find_none p l Hfind y Hy).
  - induction l as [| y l IH]; simpl; [reflexivity |].
    intros Hall. rewrite (Hall y) by now left.
    apply IH. intros z Hz. apply Hall. now right.
Qed.

End Find.

Lemma window_start (effect : ZoomEffect.t) :
  0 <= ZoomEffect.duration effect ->
  inWindow (ZoomEffect.startTime effect) effect.
Proof. intros H. unfold inWindow. to_Q. split; lra. Qed.

Lemma window_end (effect : ZoomEffect.t) :
  0 <= ZoomEffect.duration effect ->
  inWindow (ZoomEffect.startTime effect + ZoomEffect.duration effect) effect.
Proof. intros H. unfold inWindow. to_Q. split; lra. Qed.

(** The lookup of lines 91-93 is [find] with the window test. *)
Lemma lookup_is_find (zoomEffects : list ZoomEffect.t) (t : number) :
  fst (findActiveEffect zoomEffects t) = find (coversTime t) zoomEffects.
Proof. reflexivity. Qed.

Lemma resolve_none (zoomEffects : list ZoomEffect.t) (t : number) :
  find (coversTime t) zoomEffects = None ->
  calculateZoomParameters zoomEffects t
    = ZoomParams.mk 1 (num 0.5) (num 0.5) false.
Proof.
  intros H. unfold calculateZoomParameters. rewrite lookup_is_find.
  now rewrite H.
Qed.

Lemma resolve_some (zoomEffects : list ZoomEffect.t) (t : number)
    (effect : ZoomEffect.t) :
  find (coversTime t) zoomEffects = Some effect ->
  calculateZoomParameters zoomEffects t
    = ZoomParams.mk
        (1 + (ZoomEffect.level effect - 1)
             * match styleOf effect with
               | InOut =>
                   if ltb (progressOf effect t) (num 0.5)
                   then easeInOutCubic (progressOf effect t * num 2)
                   else easeInOutCubic ((1 - progressOf effect t) * num 2)
               | InOnly => easeInOutCubic (progressOf effect t)
               | OutOnly => easeInOutCubic (1 - progressOf effect t)
               end)
        (ZoomEffect.centerX effect) (ZoomEffect.centerY effect) true.
Proof.
  intros H. unfold calculateZoomParameters. rewrite lookup_is_find.
  now rewrite H.
Qed.

(** What the resolver returns depends on the collection only through the
    effect the lookup settles on. *)
Lemma resolve_alone (zoomEffects : list ZoomEffect.t) (t : number)
    (effect : ZoomEffect.t) :
  find (coversTime t) zoomEffects = Some effect ->
  calculateZoomParameters zoomEffects t
  = calculateZoomParameters [effect]%list t.
Proof.
  intros H. rewrite (resolve_some _ _ _ H). symmetry. apply resolve_some.
  simpl. now rewrite (proj2 (find_some _ _ H)).
Qed.

(** C2. The lookup of the resolver returns the first effect, in the
    order of the collection, whose window
    [startTime <= t <= startTime + duration] holds [t]; both ends of the
    window count; there is no result exactly when no window holds [t], as
    for the empty collection; and the collection is after the lookup what
    it was before.  The resolver works from that result: it is active
    exactly when the lookup returns an effect, and it then returns the
    centre of that effect and the zoom it would return for that effect
    alone. *)
Theorem lookup_first_covering :
  forall (t : number) (zoomEffects : list ZoomEffect.t),
    let found := fst (findActiveEffect zoomEffects t) in
    let resolved := calculateZoomParameters zoomEffects t in
    (forall effect,
        found = Some effect <->
        exists before after,
          zoomEffects = before ++ effect :: after
          /\ inWindow t effect
          /\ forall other, In other before -> ~ inWindow t other)
    /\ (found = None <->
        forall effect, In effect zoomEffects -> ~ inWindow t effect)
    /\ fst (findActiveEffect [] t) = None
    /\ (forall effect rest,
          0 <= ZoomEffect.duration effect ->
          fst (findActiveEffect (effect :: rest) (ZoomEffect.startTime effect))
            = Some effect
          /\ fst (findActiveEffect (effect :: rest)
                    (ZoomEffect.startTime effect + ZoomEffect.duration effect))
            = Some effect)
    /\ snd (findActiveEffect zoomEffects t) = zoomEffects
    /\ (forall effect,
          found = Some effect ->
          ZoomParams.isActive resolved = true
          /\ ZoomParams.centerX resolved = ZoomEffect.centerX effect
          /\ ZoomParams.centerY resolved = ZoomEffect.centerY effect
          /\ (0 < ZoomEffect.duration effect ->
              resolved = calculateZoomParameters [effect]%list t))
    /\ (found = None <-> ZoomParams.isActive resolved = false).
Proof.
  intros t zoomEffects found resolved. subst found resolved.
  rewrite !lookup_is_find.
  split; [| split; [| split; [| split; [| split; [| split]]]]].
  - intros effect. split.
    + intros Hfind.
      destruct (find_splits _ _ _ Hfind) as (before & after & Heq & Hx & Hb).
      exists before, after. split; [assumption |].
      split; [now apply coversTime_inWindow |].
      intros other Hin. apply coversTime_outside. now apply Hb.
    + intros (before & after & -> & Hx & Hb).
      apply find_skips; [| now apply coversTime_inWindow].
      intros other Hin. apply coversTime_outside. now apply Hb.
  - rewrite find_nothing. split; intros H effect Hin.
    + apply coversTime_outside. now apply H.
    + apply coversTime_outside. now apply H.
  - reflexivity.
  - intros effect rest Hd. rewrite !lookup_is_find. split.
    + apply (find_skips _ [] rest effect); [intros y [] |].
      apply coversTime_inWindow. now apply window_start.
    + apply (find_skips _ [] rest effect); [intros y [] |].
      apply coversTime_inWindow. now apply window_end.
  - reflexivity.
  - intros effect Hfind. rewrite (resolve_some _ _ _ Hfind). simpl.
    split; [reflexivity |]. split; [reflexivity |]. split; [reflexivity |].
    intros _. rewrite <- (resolve_some _ _ _ Hfind). now apply resolve_alone.
  - destruct (find (coversTime t) zoomEffects) as [effect |] eqn:Hfind.
    + rewrite (resolve_some _ _ _ Hfind). simpl. split; discriminate.
    + rewrite (resolve_none _ _ Hfind). simpl. split; reflexivity.
Qed.

(** Two overlapping effects: the earlier one in the collection wins where
    both cover the time, the ends of a window are inside it, and the
    resolver is active with the centre of the effect found. *)
Lemma lookup_first_covering_witness :
  let first := ZoomEffect.mk "a" (num 2) (num 4) (num 2) (num 0.25) (num 0.5) None in
  let second := ZoomEffect.mk "b" (num 3) (num 4) (num 3) (num 0.75) (num 0.5) None in
  fst (findActiveEffect [first; second] (num 4)) = Some first
  /\ fst (findActiveEffect [first; second] (num 7)) = Some second
  /\ fst (findActiveEffect [first; second] (num 2)) = Some first
  /\ fst (findActiveEffect [first; second] (num 2 + num 4)) = Some first
  /\ fst (findActiveEffect [first; second] (num 8)) = None
  /\ ZoomParams.centerX (calculateZoomParameters [first; second] (num 4))
     = num 0.25
  /\ ZoomParams.isActive (calculateZoomParameters [first; second] (num 8))
     = false.
Proof.
  intros first second.
  destruct (lookup_first_covering (num 4) [first; second])
    as (Hfirst & _ & _ & _ & _ & Hactive & _).
  destruct (lookup_first_covering (num 7) [first; second]) as (Hsecond & _).
  destruct (lookup_first_covering (num 8) [first; second])
    as (_ & Hnone & _ & _ & _ & _ & Hinactive).
  destruct (lookup_first_covering 0 []) as (_ & _ & _ & Hends & _).
  assert (H4 : fst (findActiveEffect [first; second] (num 4)) = Some first).
  { apply Hfirst. exists [], [second]%list. split; [reflexivity |].
    split; [split; vm_compute; discriminate | intros other []]. }
  assert (H8 : fst (findActiveEffect [first; second] (num 8)) = None).
  { apply Hnone.
    intros effect [<- | [<- | []]] [_ H]; vm_compute in H; now apply H. }
  split; [exact H4 |].
  split; [| split; [| split; [| split; [exact H8 | split]]]].
  - apply Hsecond. exists [first]%list, []. split; [reflexivity |].
    split; [split; vm_compute; discriminate |].
    intros other [<- | []] [_ H]. vm_compute in H. now apply H.
  - apply (Hends first [second]%list). vm_compute; discriminate.
  - apply (Hends first [second]%list). vm_compute; discriminate.
  - apply (Hactive first H4).
  - apply Hinactive. exact H8.
Defined.

(** ** The resolver *)

(** C7. At a time no window of the collection holds, and so at any time
    for the empty collection, the resolved parameters are
    [{zoom: 1, centerX: 0.5, centerY: 0.5, isActive: false}]. *)
Theorem resolve_without_active_effect :
  forall (zoomEffects : list ZoomEffect.t) (t : number),
    ((forall effect, In effect zoomEffects -> ~ inWindow t effect) ->
     calculateZoomParameters zoomEffects t
       = {| ZoomParams.zoom := 1;
            ZoomParams.centerX := num 0.5;
            ZoomParams.centerY := num 0.5;
            ZoomParams.isActive := false |})
    /\ calculateZoomParameters [] t
       = {| ZoomParams.zoom := 1;
            ZoomParams.centerX := num 0.5;
            ZoomParams.centerY := num 0.5;
            ZoomParams.isActive := false |}.
Proof.
  intros zoomEffects t. split; [| reflexivity].
  intros Hout. apply resolve_none, find_nothing.
  intros effect Hin. apply coversTime_outside. now apply Hout.
Qed.

(** An effect over [2, 6], asked at time [7]. *)
Lemma resolve_without_active_effect_witness :
  calculateZoomParameters
    [ZoomEffect.mk "a" (num 2) (num 4) (num 2) (num 0.25) (num 0.75) None]%list
    (num 7)
  = ZoomParams.mk 1 (num 0.5) (num 0.5) false.
Proof.
  apply (proj1 (resolve_without_active_effect _ (num 7))).
  intros effect [<- | []] [_ H]. vm_compute in H. now apply H.
Defined.

Lemma progress_in_unit (effect : ZoomEffect.t) (t : number) :
  0 < ZoomEffect.duration effect ->
  inWindow t effect ->
  0 <= progressOf effect t /\ progressOf effect t <= 1.
Proof.
  intros Hd [Hs He]. unfold progressOf. to_Q. split.
  - apply Qle_shift_div_l; lra.
  - apply Qle_shift_div_r; lra.
Qed.


Lemma found_in_window (zoomEffects : list ZoomEffect.t) (t : number)
    (effect : ZoomEffect.t) :
  find (coversTime t) zoomEffects = Some effect ->
  In effect zoomEffects /\ inWindow t effect.
Proof.
  intros H. destruct (find_some _ _ H) as [Hin Hc].
  split; [assumption | now apply coversTime_inWindow].
Qed.

Lemma dividedBy_some (x y : number) :
  y <> 0 -> dividedBy x y = Some (x / y).
Proof.
  intros Hy. unfold dividedBy, Qc_eq_bool.
  destruct (Qc_eq_dec y 0); [contradiction | reflexivity].
Qed.

(** The checked run: the result of the resolver when the divisor is not
    zero, none when it is. *)
Lemma checked_some (zoomEffects : list ZoomEffect.t) (t : number)
    (effect : ZoomEffect.t) :
  find (coversTime t) zoomEffects = Some effect ->
  calculateZoomParametersChecked zoomEffects t
  = if Qc_eq_bool (ZoomEffect.duration effect) 0
    then None
    else Some (calculateZoomParameters zoomEffects t).
Proof.
  intros Hfind. rewrite (resolve_some _ _ _ Hfind).
  unfold calculateZoomParametersChecked. rewrite lookup_is_find, Hfind.
  unfold dividedBy.
  destruct (Qc_eq_bool (ZoomEffect.duration effect) 0); reflexivity.
Qed.

(** C9. When every effect of the collection has a positive duration the
    resolver never divides by zero: at every time its run with the
    division checked ends with the very result of the resolver, and the
    effect the lookup settles on has a positive duration, so that the
    division of [progress] is by a number other than zero.  Nothing in the
    resolver checks the duration: with an effect of duration zero at the
    head of the collection the division at its start time is by zero, and
    the resolver still reports an active effect there; and whatever the
    collection, the run divides by zero exactly when the effect the lookup
    settles on has duration zero. *)
Theorem progress_divisor_positive :
  (forall (zoomEffects : list ZoomEffect.t),
      Forall (fun effect => 0 < ZoomEffect.duration effect) zoomEffects ->
      forall (t : number),
        calculateZoomParametersChecked zoomEffects t
          = Some (calculateZoomParameters zoomEffects t)
        /\ (forall effect,
              fst (findActiveEffect zoomEffects t) = Some effect ->
              0 < ZoomEffect.duration effect
              /\ dividedBy (t - ZoomEffect.startTime effect)
                   (ZoomEffect.duration effect)
                 = Some (progressOf effect t)))
  /\ (forall effect rest,
        ZoomEffect.duration effect = 0 ->
        calculateZoomParametersChecked (effect :: rest)
          (ZoomEffect.startTime effect) = None
        /\ ZoomParams.isActive
             (calculateZoomParameters (effect :: rest)
                (ZoomEffect.startTime effect)) = true)
  /\ (forall zoomEffects t effect,
        fst (findActiveEffect zoomEffects t) = Some effect ->
        (calculateZoomParametersChecked zoomEffects t = None
         <-> ZoomEffect.duration effect = 0)).
Proof.
  split; [| split].
  - intros zoomEffects Hpos t.
    assert (Hfound : forall effect,
               find (coversTime t) zoomEffects = Some effect ->
               0 < ZoomEffect.duration effect).
    { intros effect Hfind. destruct (found_in_window _ _ _ Hfind) as [Hin _].
      rewrite Forall_forall in Hpos. now apply Hpos. }
    split.
    + destruct (find (coversTime t) zoomEffects) as [effect |] eqn:Hfind.
      * rewrite (checked_some _ _ _ Hfind).
        pose proof (positive_not_zero _ (Hfound effect eq_refl)) as Hne.
        unfold Qc_eq_bool.
        destruct (Qc_eq_dec (ZoomEffect.duration effect) 0);
          [contradiction | reflexivity].
      * unfold calculateZoomParametersChecked. rewrite lookup_is_find, Hfind.
        now rewrite (resolve_none _ _ Hfind).
    + intros effect. rewrite lookup_is_find. intros Hfind.
      split; [now apply Hfound |].
      apply dividedBy_some, positive_not_zero. now apply Hfound.
  - intros effect rest Hd.
    assert (Hfind : find (coversTime (ZoomEffect.startTime effect))
                      (effect :: rest) = Some effect).
    { apply (find_skips _ [] rest effect); [intros y [] |].
      apply coversTime_inWindow, window_start. rewrite Hd. apply Qcle_refl. }
    split.
    + rewrite (checked_some _ _ _ Hfind), Hd. reflexivity.
    + now rewrite (resolve_some _ _ _ Hfind).
  - intros zoomEffects t effect. rewrite lookup_is_find. intros Hfind.
    rewrite (checked_some _ _ _ Hfind). unfold Qc_eq_bool.
    destruct (Qc_eq_dec (ZoomEffect.duration effect) 0) as [Hz | Hnz].
    + split; [intros _; exact Hz | reflexivity].
    + split; [discriminate | intros Hd; now elim Hnz].
Qed.

(** An effect over [2, 6] asked at time [4], where the divisor is [4];
    and an effect of duration zero at its start time. *)
Lemma progress_divisor_positive_witness :
  let effect := ZoomEffect.mk "a" (num 2) (num 4) (num 2) (num 0.5) (num 0.5) None in
  let point := ZoomEffect.mk "p" (num 5) 0 (num 2) (num 0.5) (num 0.5) None in
  calculateZoomParametersChecked [effect]%list (num 4)
    = Some (calculateZoomParameters [effect]%list (num 4))
  /\ dividedBy (num 4 - num 2) (num 4) = Some (num 0.5)
  /\ calculateZoomParametersChecked [point]%list (num 5) = None
  /\ ZoomParams.isActive (calculateZoomParameters [point]%list (num 5)) = true.
Proof.
  intros effect point.
  destruct progress_divisor_positive as (Hpos & Hzero & _).
  assert (Hall : Forall (fun effect => 0 < ZoomEffect.duration effect)
                   [effect]%list)
    by (constructor; [reflexivity | constructor]).
  destruct (Hpos _ Hall (num 4)) as [Hrun Hdiv].
  destruct (Hdiv effect eq_refl) as [_ Hquot].
  destruct (Hzero point [] eq_refl) as [Hnone Hactive].
  split; [exact Hrun |].
  split; [| split; [exact Hnone | exact Hactive]].
  etransitivity; [exact Hquot |]. f_equal. apply Qc_is_canon. reflexivity.
Defined.




(** ** The shape of the zoom over an effect *)

Lemma zoom_scales_monotone (level x y : number) :
  1 <= level -> x <= y -> 1 + (level - 1) * x <= 1 + (level - 1) * y.
Proof.
  intros Hl Hxy. to_Q.
  assert (0 <= (this level - 1) * (this y - this x))%Q
    by (apply Qmult_le_0_compat; lra).
  lra.
Qed.

Lemma zoom_at_rest (level : number) : 1 + (level - 1) * 0 = 1.
Proof. unfold number in *. ring. Qed.

Lemma zoom_at_peak (level : number) : 1 + (level - 1) * 1 = level.
Proof. unfold number in *. ring. Qed.

Lemma one_minus_range (p : number) :
  0 <= p -> p <= 1 -> 0 <= 1 - p /\ 1 - p <= 1.
Proof. intros H0 H1. to_Q. split; lra. Qed.

Lemma one_minus_antitone (p q : number) : p <= q -> 1 - q <= 1 - p.
Proof. intros H. to_Q. lra. Qed.

(** C6. For an effect with level at least [1] and a positive duration,
    over the times at which the resolver settles on it: in-only goes from
    zoom [1] at progress [0] to the level at progress [1] and never
    decreases as progress grows; out-only goes from the level at progress
    [0] to [1] at progress [1] and never increases; in-out (or no style) is
    [1] at progress [0] and at progress [1], and the level at progress
    one half. *)
Theorem zoom_shape_by_style :
  forall (zoomEffects : list ZoomEffect.t) (effect : ZoomEffect.t),
    1 <= ZoomEffect.level effect ->
    0 < ZoomEffect.duration effect ->
    let zoomAt t := ZoomParams.zoom (calculateZoomParameters zoomEffects t) in
    let settles t := find (coversTime t) zoomEffects = Some effect in
    let progress t :=
      (t - ZoomEffect.startTime effect) / ZoomEffect.duration effect in
    match styleOf effect with
    | InOnly =>
        (forall t, settles t -> progress t = 0 -> zoomAt t = 1)
        /\ (forall t, settles t -> progress t = 1 ->
              zoomAt t = ZoomEffect.level effect)
        /\ (forall t1 t2, settles t1 -> settles t2 ->
              progress t1 <= progress t2 -> zoomAt t1 <= zoomAt t2)
    | OutOnly =>
        (forall t, settles t -> progress t = 0 ->
           zoomAt t = ZoomEffect.level effect)
        /\ (forall t, settles t -> progress t = 1 -> zoomAt t = 1)
        /\ (forall t1 t2, settles t1 -> settles t2 ->
              progress t1 <= progress t2 -> zoomAt t2 <= zoomAt t1)
    | InOut =>
        (forall t, settles t -> progress t = 0 -> zoomAt t = 1)
        /\ (forall t, settles t -> progress t = 1 -> zoomAt t = 1)
        /\ (forall t, settles t -> progress t = num 0.5 ->
              zoomAt t = ZoomEffect.level effect)
    end.
Proof.
  intros zoomEffects effect Hlevel Hd zoomAt settles progress.
  assert (Hzoom : forall t, settles t ->
             zoomAt t
             = 1 + (ZoomEffect.level effect - 1)
                   * match styleOf effect with
                     | InOut =>
                         if ltb (progress t) (num 0.5)
                         then easeInOutCubic (progress t * num 2)
                         else easeInOutCubic ((1 - progress t) * num 2)
                     | InOnly => easeInOutCubic (progress t)
                     | OutOnly => easeInOutCubic (1 - progress t)
                     end).
  { intros t Ht. unfold zoomAt. now rewrite (resolve_some _ _ _ Ht). }
  assert (Hunit : forall t, settles t -> 0 <= progress t /\ progress t <= 1).
  { intros t Ht. apply progress_in_unit; [assumption |].
    now apply (found_in_window zoomEffects). }
  destruct (styleOf effect).
  - split; [| split].
    + intros t Ht Hp. rewrite (Hzoom t Ht), Hp, ease_0. apply zoom_at_rest.
    + intros t Ht Hp. rewrite (Hzoom t Ht), Hp, ease_1. apply zoom_at_peak.
    + intros t1 t2 Ht1 Ht2 Hle. rewrite (Hzoom t1 Ht1), (Hzoom t2 Ht2).
      apply zoom_scales_monotone; [assumption |].
      apply ease_monotone; [apply (Hunit t1 Ht1) | assumption | apply (Hunit t2 Ht2)].
  - split; [| split].
    + intros t Ht Hp. rewrite (Hzoom t Ht), Hp.
      replace (1 - 0) with 1 by (apply Qc_is_canon; reflexivity).
      rewrite ease_1. apply zoom_at_peak.
    + intros t Ht Hp. rewrite (Hzoom t Ht), Hp.
      replace (1 - 1) with 0 by (apply Qc_is_canon; reflexivity).
      rewrite ease_0. apply zoom_at_rest.
    + intros t1 t2 Ht1 Ht2 Hle. rewrite (Hzoom t1 Ht1), (Hzoom t2 Ht2).
      destruct (Hunit t1 Ht1) as [L1 U1]. destruct (Hunit t2 Ht2) as [L2 U2].
      apply zoom_scales_monotone; [assumption |].
      apply ease_monotone.
      * now apply one_minus_range.
      * now apply one_minus_antitone.
      * now apply one_minus_range.
  - split; [| split].
    + intros t Ht Hp. rewrite (Hzoom t Ht), Hp.
      change (ltb 0 (num 0.5)) with true. cbv iota.
      replace (0 * num 2) with 0 by (apply Qc_is_canon; reflexivity).
      rewrite ease_0. apply zoom_at_rest.
    + intros t Ht Hp. rewrite (Hzoom t Ht), Hp.
      change (ltb 1 (num 0.5)) with false. cbv iota.
      replace ((1 - 1) * num 2) with 0 by (apply Qc_is_canon; reflexivity).
      rewrite ease_0. apply zoom_at_rest.
    + intros t Ht Hp. rewrite (Hzoom t Ht), Hp.
      change (ltb (num 0.5) (num 0.5)) with false. cbv iota.
      replace ((1 - num 0.5) * num 2) with 1 by (apply Qc_is_canon; reflexivity).
      rewrite ease_1. apply zoom_at_peak.
Qed.

(** Three effects over [2, 6] with level [2], one of each style, each in a
    collection of its own. *)
Lemma zoom_shape_by_style_witness :
  let effect style :=
    ZoomEffect.mk "a" (num 2) (num 4) (num 2) (num 0.5) (num 0.5) style in
  let zoomAt style t :=
    ZoomParams.zoom (calculateZoomParameters [effect style]%list t) in
  (zoomAt (Some InOnly) (num 2) = 1
   /\ zoomAt (Some InOnly) (num 6) = num 2
   /\ zoomAt (Some InOnly) (num 3) <= zoomAt (Some InOnly) (num 5))
  /\ (zoomAt (Some OutOnly) (num 2) = num 2
      /\ zoomAt (Some OutOnly) (num 6) = 1
      /\ zoomAt (Some OutOnly) (num 5) <= zoomAt (Some OutOnly) (num 3))
  /\ (zoomAt None (num 2) = 1
      /\ zoomAt None (num 6) = 1
      /\ zoomAt None (num 4) = num 2).
Proof.
  intros effect zoomAt.
  assert (Hlevel : forall style, 1 <= ZoomEffect.level (effect style))
    by (intros style; vm_compute; discriminate).
  assert (Hd : forall style, 0 < ZoomEffect.duration (effect style))
    by (intros style; reflexivity).
  pose proof (zoom_shape_by_style [effect (Some InOnly)]%list _
                (Hlevel (Some InOnly)) (Hd (Some InOnly))) as (I0 & I1 & Imono).
  pose proof (zoom_shape_by_style [effect (Some OutOnly)]%list _
                (Hlevel (Some OutOnly)) (Hd (Some OutOnly))) as (O0 & O1 & Omono).
  pose proof (zoom_shape_by_style [effect None]%list _
                (Hlevel None) (Hd None)) as (B0 & B1 & Bhalf).
  split; [| split]; (split; [| split]).
  - apply I0; [reflexivity | apply Qc_is_canon; reflexivity].
  - apply I1; [reflexivity | apply Qc_is_canon; reflexivity].
  - apply Imono; [reflexivity | reflexivity | vm_compute; discriminate].
  - apply O0; [reflexivity | apply Qc_is_canon; reflexivity].
  - apply O1; [reflexivity | apply Qc_is_canon; reflexivity].
  - apply Omono; [reflexivity | reflexivity | vm_compute; discriminate].
  - apply B0; [reflexivity | apply Qc_is_canon; reflexivity].
  - apply B1; [reflexivity | apply Qc_is_canon; reflexivity].
  - apply Bhalf; [reflexivity | apply Qc_is_canon; reflexivity].
Defined.

(** ** The render loop *)

Lemma factor_when_jumping (videoTimeDelta : number) :
  num 0.1 < Qcabs videoTimeDelta ->
  interpolationFactor videoTimeDelta = num 0.8.
Proof.
  intros H. unfold interpolationFactor. apply gtb_gt in H. now rewrite H.
Qed.

Lemma factor_when_playing (videoTimeDelta : number) :
  Qcabs videoTimeDelta <= num 0.1 ->
  interpolationFactor videoTimeDelta = num 0.3.
Proof.
  intros H. unfold interpolationFactor, gtb. apply ltb_ge in H. now rewrite H.
Qed.

Lemma factors_differ : num 0.8 <> num 0.3.
Proof. intros H. apply Q2Qc_eq_iff in H. vm_compute in H. discriminate. Qed.

Lemma factor_policy (videoTimeDelta : number) :
  (interpolationFactor videoTimeDelta = num 0.8
   <-> num 0.1 < Qcabs videoTimeDelta)
  /\ (interpolationFactor videoTimeDelta = num 0.3
      <-> Qcabs videoTimeDelta <= num 0.1).
Proof.
  destruct (Qclt_le_dec (num 0.1) (Qcabs videoTimeDelta)) as [Hjump | Hplay].
  - rewrite (factor_when_jumping _ Hjump). split; split; auto.
    + intros H. elim (factors_differ H).
    + intros H. elim (Qclt_not_le _ _ Hjump H).
  - rewrite (factor_when_playing _ Hplay). split; split; auto.
    + intros H. elim factors_differ. now symmetry.
    + intros H. elim (Qclt_not_le _ _ H Hplay).
Qed.

Lemma renderFrame_composited (zoomEffects : list ZoomEffect.t)
    (timestamp : number) (host : Host) (s : Refs)
    (vid : Video) (surface : Surface) (ctx : Canvas.Context2D) :
  video host = Some vid ->
  canvas host = Some surface ->
  contextRef s = Some ctx ->
  renderFrame zoomEffects timestamp host s
  = {| animationRef := Some (requested s);
       contextRef :=
         Some (paintFrame
                 (calculateZoomParameters zoomEffects (currentTime vid))
                 (smoothedParamsOf zoomEffects vid s) vid surface ctx);
       lastTimeRef := timestamp;
       lastVideoTimeRef := currentTime vid;
       frameCountRef := S (frameCountRef s);
       prevZoomStateRef := Some (smoothedParamsOf zoomEffects vid s);
       requested := S (requested s) |}.
Proof. intros Hv Hc Hx. unfold renderFrame. now rewrite Hv, Hc, Hx. Qed.

(** C4. On a tick that composites, the factor handed to the smoother is
    [0.8] exactly when the video clock moved by more than [0.1] in
    absolute value since the clock value the last composited tick left
    behind, and [0.3] otherwise; the smoother's result is what the tick
    stores as previous state, whether or not an effect is active, and the
    next composited tick blends towards its own target from that state,
    with the factor of its own clock delta. *)
Theorem tick_smoothing :
  forall (zoomEffects : list ZoomEffect.t) (timestamp : number) (host : Host)
         (s : Refs) (vid : Video) (surface : Surface) (ctx : Canvas.Context2D),
    video host = Some vid ->
    canvas host = Some surface ->
    contextRef s = Some ctx ->
    let videoTimeDelta := currentTime vid - lastVideoTimeRef s in
    let factor := interpolationFactor videoTimeDelta in
    let target :=
      asZoomState (calculateZoomParameters zoomEffects (currentTime vid)) in
    let smoothed := interpolateZoomState target (prevZoomStateRef s) factor in
    let s' := renderFrame zoomEffects timestamp host s in
    (factor = num 0.8 <-> num 0.1 < Qcabs videoTimeDelta)
    /\ (factor = num 0.3 <-> Qcabs videoTimeDelta <= num 0.1)
    /\ prevZoomStateRef s' = Some smoothed
    /\ lastVideoTimeRef s' = currentTime vid
    /\ forall (timestamp2 : number) (host2 : Host) (vid2 : Video)
              (surface2 : Surface),
         video host2 = Some vid2 ->
         canvas host2 = Some surface2 ->
         prevZoomStateRef (renderFrame zoomEffects timestamp2 host2 s')
         = Some (interpolateZoomState
                   (asZoomState
                      (calculateZoomParameters zoomEffects (currentTime vid2)))
                   (Some smoothed)
                   (interpolationFactor (currentTime vid2 - currentTime vid))).
Proof.
  intros zoomEffects timestamp host s vid surface ctx Hv Hc Hx
         videoTimeDelta factor target smoothed s'.
  pose proof (renderFrame_composited zoomEffects timestamp host s _ _ _ Hv Hc Hx)
    as Hs'.
  fold s' in Hs'.
  split; [apply factor_policy |].
  split; [apply factor_policy |].
  split; [rewrite Hs'; reflexivity |].
  split; [rewrite Hs'; reflexivity |].
  intros timestamp2 host2 vid2 surface2 Hv2 Hc2.
  assert (Hx2 : contextRef s' = Some
                  (paintFrame
                     (calculateZoomParameters zoomEffects (currentTime vid))
                     (smoothedParamsOf zoomEffects vid s) vid surface ctx))
    by (rewrite Hs'; reflexivity).
  rewrite (renderFrame_composited zoomEffects timestamp2 host2 s' _ _ _ Hv2 Hc2 Hx2).
  simpl. unfold smoothedParamsOf. rewrite Hs'. reflexivity.
Qed.

(** Scenario C of the specification: from rest, a seek by half a second
    into an effect and then a hundredth of a second of playback. *)
Lemma tick_smoothing_witness :
  let effect := ZoomEffect.mk "a" 0 (num 4) (num 3) (num 0.5) (num 0.5) (Some InOnly) in
  let surface := {| width := num 640; height := num 360 |} in
  let host t := {| video := Some {| currentTime := t |}; canvas := Some surface |} in
  let s0 :=
    mkRefs None (Some Canvas.fresh) 0 0 0
      (Some (ZoomState.mk 1 (num 0.5) (num 0.5))) 0 in
  let s1 := renderFrame [effect]%list (num 16) (host (num 0.5)) s0 in
  let s2 := renderFrame [effect]%list (num 32) (host (num 0.51)) s1 in
  interpolationFactor (num 0.5 - 0) = num 0.8
  /\ interpolationFactor (num 0.51 - num 0.5) = num 0.3
  /\ prevZoomStateRef s1
     = Some (interpolateZoomState
               (asZoomState (calculateZoomParameters [effect]%list (num 0.5)))
               (Some (ZoomState.mk 1 (num 0.5) (num 0.5))) (num 0.8))
  /\ prevZoomStateRef s2
     = Some (interpolateZoomState
               (asZoomState (calculateZoomParameters [effect]%list (num 0.51)))
               (prevZoomStateRef s1) (num 0.3)).
Proof.
  intros effect surface host s0 s1 s2.
  destruct (tick_smoothing [effect]%list (num 16) (host (num 0.5)) s0
              {| currentTime := num 0.5 |} surface Canvas.fresh
              eq_refl eq_refl eq_refl)
    as (Hjump & _ & Hprev & _ & Hnext).
  assert (F1 : interpolationFactor (num 0.5 - 0) = num 0.8)
    by (apply Hjump; reflexivity).
  assert (F2 : interpolationFactor (num 0.51 - num 0.5) = num 0.3)
    by (apply factor_when_playing; vm_compute; discriminate).
  split; [exact F1 |]. split; [exact F2 |].
  split.
  - fold s1 in Hprev. rewrite Hprev. simpl lastVideoTimeRef. simpl currentTime.
    simpl prevZoomStateRef. now rewrite F1.
  - specialize (Hnext (num 32) (host (num 0.51)) {| currentTime := num 0.51 |}
                  surface eq_refl eq_refl).
    fold s1 in Hnext, Hprev. fold s2 in Hnext.
    rewrite Hnext. simpl currentTime. rewrite F2, Hprev. reflexivity.
Defined.

(** ** Painting *)


Lemma compose_assoc (m n o : Canvas.Matrix) :
  Canvas.compose (Canvas.compose m n) o
  = Canvas.compose m (Canvas.compose n o).
Proof.
  destruct m, n, o. unfold Canvas.compose. simpl.
  unfold number in *. f_equal; ring.
Qed.

(** [Canvas.compose] is the composition of the affine maps. *)
Lemma apply_compose (m n : Canvas.Matrix) (p : number * number) :
  Canvas.apply (Canvas.compose m n) p = Canvas.apply m (Canvas.apply n p).
Proof.
  destruct m, n, p. unfold Canvas.apply, Canvas.compose. simpl.
  unfold number in *. f_equal; ring.
Qed.


Lemma paintFrame_zoomed (currentParams : ZoomParams.t)
    (smoothedParams : ZoomState.t) (vid : Video) (surface : Surface)
    (ctx : Canvas.Context2D) :
  ZoomParams.isActive currentParams = true ->
  let m := Canvas.transform (Canvas.state ctx) in
  let cx := ZoomState.centerX smoothedParams * width surface in
  let cy := ZoomState.centerY smoothedParams * height surface in
  let z := ZoomState.zoom smoothedParams in
  paintFrame currentParams smoothedParams vid surface ctx
  = {| Canvas.state := Canvas.state ctx;
       Canvas.saved := Canvas.saved ctx;
       Canvas.painted :=
         Canvas.painted ctx
         ++ [Canvas.Cleared m 0 0 (width surface) (height surface);
             Canvas.Drawn
               (Canvas.mkDrawingState
                  (Canvas.compose m (zoomAbout cx cy z)) true Canvas.High)
               (currentTime vid) 0 0 (width surface) (height surface)] |}.
Proof.
  intros Hactive m cx cy z. unfold paintFrame. rewrite Hactive.
  unfold Canvas.restore, Canvas.drawImage, Canvas.setImageSmoothingQuality,
    Canvas.setImageSmoothingEnabled, Canvas.translate, Canvas.scale,
    Canvas.multiply, Canvas.withState, Canvas.save, Canvas.clearRect.
  simpl. fold m cx cy z. rewrite <- app_assoc. simpl.
  unfold zoomAbout. now rewrite !compose_assoc.
Qed.

Lemma paintFrame_plain (currentParams : ZoomParams.t)
    (smoothedParams : ZoomState.t) (vid : Video) (surface : Surface)
    (ctx : Canvas.Context2D) :
  ZoomParams.isActive currentParams = false ->
  paintFrame currentParams smoothedParams vid surface ctx
  = {| Canvas.state := Canvas.state ctx;
       Canvas.saved := Canvas.saved ctx;
       Canvas.painted :=
         Canvas.painted ctx
         ++ [Canvas.Cleared (Canvas.transform (Canvas.state ctx))
               0 0 (width surface) (height surface);
             Canvas.Drawn (Canvas.state ctx)
               (currentTime vid) 0 0 (width surface) (height surface)] |}.
Proof.
  intros Hidle. unfold paintFrame. rewrite Hidle.
  unfold Canvas.drawImage, Canvas.clearRect. simpl.
  now rewrite <- app_assoc.
Qed.



(** The loop keeps the transform of the context at the identity: every
    tick starts from the identity, as the first one does. *)
Lemma run_keeps_identity (zoomEffects : list ZoomEffect.t)
    (ticks : list (number * Host)) (s : Refs) :
  (forall ctx, contextRef s = Some ctx ->
     Canvas.transform (Canvas.state ctx) = Canvas.identity) ->
  forall ctx, contextRef (run zoomEffects ticks s) = Some ctx ->
    Canvas.transform (Canvas.state ctx) = Canvas.identity.
Proof.
  revert s. induction ticks as [| [timestamp host] ticks IH]; intros s Hs;
    simpl; [exact Hs |].
  apply IH. intros ctx'.
  unfold renderFrame.
  destruct (video host) as [vid |]; [| exact (Hs ctx')].
  destruct (canvas host) as [surface |]; [| exact (Hs ctx')].
  destruct (contextRef s) as [ctx |] eqn:Hctx; [| simpl; discriminate].
  simpl. intros [= <-].
  destruct (ZoomParams.isActive
              (calculateZoomParameters zoomEffects (currentTime vid))) eqn:Hactive.
  - rewrite (paintFrame_zoomed _ _ _ _ _ Hactive). simpl. now apply Hs.
  - rewrite (paintFrame_plain _ _ _ _ _ Hactive). simpl. now apply Hs.
Qed.

(** * Further properties of the compositor *)

(** ** The shape of the curve and of the zoom *)

Lemma zoom_between_one_and_level (level x : number) :
  1 <= level -> 0 <= x -> x <= 1 ->
  1 <= 1 + (level - 1) * x /\ 1 + (level - 1) * x <= level.
Proof.
  intros Hl H0 H1. to_Q.
  assert (0 <= (this level - 1) * this x)%Q by (apply Qmult_le_0_compat; lra).
  assert (0 <= (this level - 1) * (1 - this x))%Q
    by (apply Qmult_le_0_compat; lra).
  split; lra.
Qed.

(** The argument handed to the curve is in [0, 1], whatever the style. *)
Lemma zoomProgress_in_unit (style : ZoomStyle) (progress : number) :
  0 <= progress -> progress <= 1 ->
  let zoomProgress :=
    match style with
    | InOut =>
        if ltb progress (num 0.5)
        then easeInOutCubic (progress * num 2)
        else easeInOutCubic ((1 - progress) * num 2)
    | InOnly => easeInOutCubic progress
    | OutOnly => easeInOutCubic (1 - progress)
    end in
  0 <= zoomProgress /\ zoomProgress <= 1.
Proof.
  intros H0 H1. destruct style; simpl.
  - now apply ease_range.
  - apply ease_range; to_Q; lra.
  - destruct (ltb_cases progress (num 0.5)) as [[H ->] | [H ->]];
      apply ease_range; to_Q; lra.
Qed.

(** X2. While the resolver settles on an effect with level at least [1]
    and a positive duration, the resolved zoom is between [1] and the
    level of the effect, for each of the three styles. *)
Theorem resolved_zoom_bounds :
  forall (zoomEffects : list ZoomEffect.t) (effect : ZoomEffect.t) (t : number),
    find (coversTime t) zoomEffects = Some effect ->
    1 <= ZoomEffect.level effect ->
    0 < ZoomEffect.duration effect ->
    1 <= ZoomParams.zoom (calculateZoomParameters zoomEffects t)
    /\ ZoomParams.zoom (calculateZoomParameters zoomEffects t)
       <= ZoomEffect.level effect.
Proof.
  intros zoomEffects effect t Hfind Hlevel Hd.
  rewrite (resolve_some _ _ _ Hfind). simpl.
  destruct (found_in_window _ _ _ Hfind) as [_ Hw].
  destruct (progress_in_unit effect t Hd Hw) as [H0 H1].
  destruct (zoomProgress_in_unit (styleOf effect) _ H0 H1) as [Z0 Z1].
  now apply zoom_between_one_and_level.
Qed.

(** An out-only effect of level [3] over [0, 4], three seconds in. *)
Lemma resolved_zoom_bounds_witness :
  let effect :=
    ZoomEffect.mk "a" 0 (num 4) (num 3) (num 0.5) (num 0.5) (Some OutOnly) in
  1 <= ZoomParams.zoom (calculateZoomParameters [effect]%list (num 3))
  /\ ZoomParams.zoom (calculateZoomParameters [effect]%list (num 3)) <= num 3.
Proof.
  intros effect.
  apply (resolved_zoom_bounds [effect]%list effect (num 3));
    [reflexivity | vm_compute; discriminate | reflexivity].
Defined.

Lemma inOutProgress_rising (p q : number) :
  0 <= p -> p <= q -> q <= num 0.5 -> inOutProgress p <= inOutProgress q.
Proof.
  intros H0 Hpq Hq. unfold inOutProgress.
  destruct (ltb_cases q (num 0.5)) as [[Hlt ->] | [Hge ->]].
  - assert (Hp : ltb p (num 0.5) = true) by (apply ltb_lt; to_Q; lra).
    rewrite Hp. apply ease_monotone; to_Q; lra.
  - assert (q = num 0.5) as -> by (to_Q; lra).
    replace ((1 - num 0.5) * num 2) with 1 by (apply Qc_is_canon; reflexivity).
    rewrite ease_1.
    destruct (ltb_cases p (num 0.5)) as [[Hp ->] | [Hp ->]].
    + apply ease_range; to_Q; lra.
    + assert (p = num 0.5) as -> by (to_Q; lra).
      replace ((1 - num 0.5) * num 2) with 1 by (apply Qc_is_canon; reflexivity).
      rewrite ease_1. apply Qcle_refl.
Qed.

Lemma inOutProgress_falling (p q : number) :
  num 0.5 <= p -> p <= q -> q <= 1 -> inOutProgress q <= inOutProgress p.
Proof.
  intros Hp Hpq H1. unfold inOutProgress.
  assert (Hp' : ltb p (num 0.5) = false) by (apply ltb_ge; assumption).
  assert (Hq' : ltb q (num 0.5) = false) by (apply ltb_ge; to_Q; lra).
  rewrite Hp', Hq'. apply ease_monotone; to_Q; lra.
Qed.

(** X3. An in-out effect (or one without a style) with level at least [1]
    and a positive duration draws a bell: over the times the resolver
    settles on it, the zoom never decreases while the progress stays at or
    below one half and never increases from one half on. *)
Theorem in_out_zoom_is_a_bell :
  forall (zoomEffects : list ZoomEffect.t) (effect : ZoomEffect.t),
    styleOf effect = InOut ->
    1 <= ZoomEffect.level effect ->
    0 < ZoomEffect.duration effect ->
    let zoomAt t := ZoomParams.zoom (calculateZoomParameters zoomEffects t) in
    let settles t := find (coversTime t) zoomEffects = Some effect in
    let progress t :=
      (t - ZoomEffect.startTime effect) / ZoomEffect.duration effect in
    (forall t1 t2, settles t1 -> settles t2 ->
       progress t1 <= progress t2 -> progress t2 <= num 0.5 ->
       zoomAt t1 <= zoomAt t2)
    /\ (forall t1 t2, settles t1 -> settles t2 ->
          num 0.5 <= progress t1 -> progress t1 <= progress t2 ->
          zoomAt t2 <= zoomAt t1).
Proof.
  intros zoomEffects effect Hstyle Hlevel Hd zoomAt settles progress.
  assert (Hzoom : forall t, settles t ->
             zoomAt t
             = 1 + (ZoomEffect.level effect - 1) * inOutProgress (progress t)).
  { intros t Ht. unfold zoomAt. rewrite (resolve_some _ _ _ Ht), Hstyle.
    reflexivity. }
  assert (Hunit : forall t, settles t -> 0 <= progress t /\ progress t <= 1).
  { intros t Ht. apply progress_in_unit; [assumption |].
    now apply (found_in_window zoomEffects). }
  split.
  - intros t1 t2 Ht1 Ht2 Hle Hhalf. rewrite (Hzoom t1 Ht1), (Hzoom t2 Ht2).
    apply zoom_scales_monotone; [assumption |].
    apply inOutProgress_rising; [apply (Hunit t1 Ht1) | assumption | assumption].
  - intros t1 t2 Ht1 Ht2 Hhalf Hle. rewrite (Hzoom t1 Ht1), (Hzoom t2 Ht2).
    apply zoom_scales_monotone; [assumption |].
    apply inOutProgress_falling; [assumption | assumption | apply (Hunit t2 Ht2)].
Qed.

(** The effect over [2, 6]: the rise from second [3] to second [4] and
    the fall from second [4] to second [5]. *)
Lemma in_out_zoom_is_a_bell_witness :
  let effect := ZoomEffect.mk "a" (num 2) (num 4) (num 2) (num 0.5) (num 0.5) None in
  let zoomAt t := ZoomParams.zoom (calculateZoomParameters [effect]%list t) in
  zoomAt (num 3) <= zoomAt (num 4)
  /\ zoomAt (num 5) <= zoomAt (num 4).
Proof.
  intros effect zoomAt.
  destruct (in_out_zoom_is_a_bell [effect]%list effect eq_refl)
    as (Hrise & Hfall).
  - vm_compute; discriminate.
  - reflexivity.
  - split.
    + apply Hrise; [reflexivity | reflexivity | |]; vm_compute; discriminate.
    + apply Hfall; [reflexivity | reflexivity | |]; vm_compute; discriminate.
Defined.

(** ** The smoother over many ticks *)

Lemma factor_at_rest : interpolationFactor 0 = num 0.3.
Proof. reflexivity. Qed.

Lemma factor_in_unit (videoTimeDelta : number) :
  0 <= interpolationFactor videoTimeDelta
  /\ interpolationFactor videoTimeDelta <= 1.
Proof.
  unfold interpolationFactor.
  destruct (gtb (Qcabs videoTimeDelta) (num 0.1)); split; vm_compute;
    discriminate.
Qed.

Lemma renderFrame_skipped (zoomEffects : list ZoomEffect.t)
    (timestamp : number) (host : Host) (s : Refs) :
  ready host = false \/ contextRef s = None ->
  renderFrame zoomEffects timestamp host s
  = {| animationRef := Some (requested s);
       contextRef := contextRef s;
       lastTimeRef := lastTimeRef s;
       lastVideoTimeRef := lastVideoTimeRef s;
       frameCountRef := frameCountRef s;
       prevZoomStateRef := prevZoomStateRef s;
       requested := S (requested s) |}.
Proof.
  unfold renderFrame, ready.
  destruct (video host), (canvas host), (contextRef s); intros [H | H];
    try discriminate; reflexivity.
Qed.

Lemma ready_parts (host : Host) :
  ready host = true ->
  exists vid surface, video host = Some vid /\ canvas host = Some surface.
Proof.
  unfold ready. destruct (video host) as [vid |]; [| discriminate].
  destruct (canvas host) as [surface |]; [| discriminate].
  intros _. now exists vid, surface.
Qed.

Lemma between_start (p c : number) : between p c p.
Proof.
  unfold between. destruct (Qclt_le_dec c p) as [Hlt | Hle].
  - right. split; [now apply Qclt_le_weak | apply Qcle_refl].
  - left. split; [apply Qcle_refl | assumption].
Qed.

Lemma between_closer (p c v w : number) :
  between p c v -> between v c w -> between p c w.
Proof.
  unfold between. intros [[H1 H2] | [H1 H2]] [[H3 H4] | [H3 H4]]; to_Q.
  - left. split; lra.
  - assert (Hv : (this v == this c)%Q) by lra.
    left. split; lra.
  - assert (Hv : (this v == this c)%Q) by lra.
    right. split; lra.
  - right. split; lra.
Qed.

(** X6. On a paused video the rendered state closes in on the target and
    never passes it: after any number of composited ticks at the same
    video time, starting from a previous state left at that time, each
    field of the stored state lies between the field it started with and
    the field of the target, ends included.  The durations are positive,
    so that the target is a number. *)
Theorem paused_video_closes_in (zoomEffects : list ZoomEffect.t) (v : number)
    (ticks : list (number * Host)) :
  Forall (fun effect => 0 < ZoomEffect.duration effect) zoomEffects ->
  Forall (fun tick =>
            video (snd tick) = Some {| currentTime := v |}
            /\ canvas (snd tick) <> None) ticks ->
  forall (s : Refs) (p : ZoomState.t),
    contextRef s <> None ->
    lastVideoTimeRef s = v ->
    prevZoomStateRef s = Some p ->
    let target := asZoomState (calculateZoomParameters zoomEffects v) in
    exists out,
      prevZoomStateRef (run zoomEffects ticks s) = Some out
      /\ between (ZoomState.zoom p) (ZoomState.zoom target) (ZoomState.zoom out)
      /\ between (ZoomState.centerX p) (ZoomState.centerX target)
           (ZoomState.centerX out)
      /\ between (ZoomState.centerY p) (ZoomState.centerY target)
           (ZoomState.centerY out).
Proof.
  intros _.
  induction 1 as [| [timestamp host] ticks [Hv Hc] _ IH]; intros s p Hx Hlast Hp target.
  - exists p. simpl. split; [assumption |].
    split; [| split]; apply between_start.
  - simpl in Hv, Hc. simpl run.
    destruct (canvas host) as [surface |] eqn:Hcanvas; [| now elim Hc].
    destruct (contextRef s) as [ctx |] eqn:Hctx; [| now elim Hx].
    pose proof (renderFrame_composited zoomEffects timestamp host s _ _ _
                  Hv Hcanvas Hctx) as Hs'.
    set (s' := renderFrame zoomEffects timestamp host s) in *.
    assert (Hout : smoothedParamsOf zoomEffects {| currentTime := v |} s
                   = interpolateZoomState target (Some p) (num 0.3)).
    { unfold smoothedParamsOf. simpl currentTime. rewrite Hlast, Hp.
      replace (v - v) with 0 by (unfold number in *; ring).
      now rewrite factor_at_rest. }
    destruct (IH s' (interpolateZoomState target (Some p) (num 0.3)))
      as (out & Hrun & Hz & Hcx & Hcy).
    + rewrite Hs'. discriminate.
    + rewrite Hs'. reflexivity.
    + rewrite Hs'. simpl. now rewrite Hout.
    + exists out. split; [exact Hrun |].
      fold target in Hz, Hcx, Hcy.
      destruct (interpolate_fields target p (num 0.3)) as (Gz & Gx & Gy).
      rewrite Gz in Hz. rewrite Gx in Hcx. rewrite Gy in Hcy.
      assert (F0 : 0 <= num 0.3) by (vm_compute; discriminate).
      assert (F1 : num 0.3 <= 1) by (vm_compute; discriminate).
      split; [| split]; eapply between_closer; try eassumption;
        now apply blend_is_between.
Qed.

(** Two ticks, paused at the middle of an in-out effect of level [2],
    starting unzoomed: the zoom is between [1] and [2]. *)
Lemma paused_video_closes_in_witness :
  let effect := ZoomEffect.mk "a" (num 2) (num 4) (num 2) (num 0.5) (num 0.5) None in
  let host :=
    {| video := Some {| currentTime := num 4 |};
       canvas := Some {| width := num 640; height := num 360 |} |} in
  let s := mkRefs None (Some Canvas.fresh) 0 (num 4) 0
             (Some (ZoomState.mk 1 (num 0.5) (num 0.5))) 0 in
  exists out,
    prevZoomStateRef
      (run [effect]%list [(num 16, host); (num 32, host)] s) = Some out
    /\ between 1 (num 2) (ZoomState.zoom out).
Proof.
  intros effect host s.
  destruct (paused_video_closes_in [effect]%list (num 4)
              [(num 16, host); (num 32, host)]) with (s := s)
              (p := ZoomState.mk 1 (num 0.5) (num 0.5))
    as (out & Hrun & Hz & _).
  - repeat constructor.
  - repeat constructor; discriminate.
  - discriminate.
  - reflexivity.
  - reflexivity.
  - exists out. split; [exact Hrun |].
    replace (num 2)
      with (ZoomState.zoom
              (asZoomState (calculateZoomParameters [effect]%list (num 4))))
      by (apply Qc_is_canon; reflexivity).
    exact Hz.
Defined.

(** ** The rendered state stays a picture that fills the frame *)

Lemma within_between (lo hi x y v : number) :
  lo <= x -> x <= hi -> lo <= y -> y <= hi -> between x y v ->
  lo <= v /\ v <= hi.
Proof.
  intros Hx1 Hx2 Hy1 Hy2 [[H1 H2] | [H1 H2]]; to_Q; split; lra.
Qed.

Lemma target_fillsFrame (top : number) (zoomEffects : list ZoomEffect.t)
    (t : number) :
  1 <= top ->
  Forall (wellFormed top) zoomEffects ->
  fillsFrame top (asZoomState (calculateZoomParameters zoomEffects t)).
Proof.
  intros Htop Hwf.
  destruct (find (coversTime t) zoomEffects) as [effect |] eqn:Hfind.
  - destruct (found_in_window _ _ _ Hfind) as [Hin Hw].
    rewrite Forall_forall in Hwf.
    destruct (Hwf effect Hin) as (Hd & Hl & Hlt & Hx0 & Hx1 & Hy0 & Hy1).
    destruct (progress_in_unit effect t Hd Hw) as [H0 H1].
    destruct (zoomProgress_in_unit (styleOf effect) _ H0 H1) as [Z0 Z1].
    destruct (zoom_between_one_and_level _ _ Hl Z0 Z1) as [B0 B1].
    rewrite (resolve_some _ _ _ Hfind). unfold fillsFrame, asZoomState. simpl.
    split; [exact B0 |].
    split; [exact (Qcle_trans _ _ _ B1 Hlt) | auto].
  - rewrite (resolve_none _ _ Hfind). unfold fillsFrame, asZoomState. simpl.
    split; [apply Qcle_refl |]. split; [exact Htop |].
    repeat split; vm_compute; discriminate.
Qed.

Lemma interpolate_fillsFrame (top : number) (target : ZoomState.t)
    (previous : option ZoomState.t) (factor : number) :
  fillsFrame top target ->
  (forall p, previous = Some p -> fillsFrame top p) ->
  0 <= factor -> factor <= 1 ->
  fillsFrame top (interpolateZoomState target previous factor).
Proof.
  intros Ht Hp H0 H1. destruct previous as [p |]; [| exact Ht].
  destruct Ht as (Tz0 & Tz1 & Tx0 & Tx1 & Ty0 & Ty1).
  destruct (Hp p eq_refl) as (Pz0 & Pz1 & Px0 & Px1 & Py0 & Py1).
  destruct (interpolate_fields target p factor) as (Hz & Hx & Hy).
  unfold fillsFrame. rewrite Hz, Hx, Hy.
  pose proof (within_between 1 top _ _ _ Pz0 Pz1 Tz0 Tz1
                (blend_is_between _ _ factor H0 H1)) as [? ?].
  pose proof (within_between 0 1 _ _ _ Px0 Px1 Tx0 Tx1
                (blend_is_between _ _ factor H0 H1)) as [? ?].
  pose proof (within_between 0 1 _ _ _ Py0 Py1 Ty0 Ty1
                (blend_is_between _ _ factor H0 H1)) as [? ?].
  repeat split; assumption.
Qed.

Lemma smoothed_fillsFrame (top : number) (zoomEffects : list ZoomEffect.t)
    (vid : Video) (s : Refs) :
  1 <= top ->
  Forall (wellFormed top) zoomEffects ->
  (forall p, prevZoomStateRef s = Some p -> fillsFrame top p) ->
  fillsFrame top (smoothedParamsOf zoomEffects vid s).
Proof.
  intros Htop Hwf Hp. unfold smoothedParamsOf.
  apply interpolate_fillsFrame; [now apply target_fillsFrame | exact Hp | |];
    apply factor_in_unit.
Qed.

(** X7. When every effect has a positive duration, a level between [1]
    and [top] and a centre inside the frame, the loop keeps the rendered
    state the same way: whatever the ticks bring (seeks, pauses, ticks
    that do not composite), the stored zoom stays between [1] and [top]
    and the stored centre inside the frame. *)
Theorem rendered_state_fills_frame :
  forall (top : number) (zoomEffects : list ZoomEffect.t)
         (ticks : list (number * Host)) (s : Refs),
    1 <= top ->
    Forall (wellFormed top) zoomEffects ->
    (forall p, prevZoomStateRef s = Some p -> fillsFrame top p) ->
    forall p, prevZoomStateRef (run zoomEffects ticks s) = Some p ->
      fillsFrame top p.
Proof.
  intros top zoomEffects ticks s Htop Hwf. revert s.
  induction ticks as [| [timestamp host] ticks IH]; intros s Hs; simpl;
    [exact Hs |].
  apply IH. intros p.
  destruct (ready host) eqn:Hready.
  - destruct (ready_parts host Hready) as (vid & surface & Hv & Hc).
    destruct (contextRef s) as [ctx |] eqn:Hctx.
    + rewrite (renderFrame_composited _ _ _ _ _ _ _ Hv Hc Hctx). simpl.
      intros [= <-]. now apply smoothed_fillsFrame.
    + rewrite renderFrame_skipped by now right. simpl. apply Hs.
  - rewrite renderFrame_skipped by now left. simpl. apply Hs.
Qed.

(** From the mount, a tick in the middle of an effect of level [2] and a
    tick after a seek past its end. *)
Lemma rendered_state_fills_frame_witness :
  let effect := ZoomEffect.mk "a" (num 2) (num 4) (num 2) (num 0.25) (num 0.75) None in
  let host t :=
    {| video := Some {| currentTime := t |};
       canvas := Some {| width := num 640; height := num 360 |} |} in
  exists p,
    prevZoomStateRef
      (run [effect]%list [(num 16, host (num 4)); (num 32, host (num 7))]
         (mounted (Some Canvas.fresh))) = Some p
    /\ fillsFrame (num 2) p.
Proof.
  intros effect host. eexists. split; [reflexivity |].
  apply (rendered_state_fills_frame (num 2) [effect]%list
           [(num 16, host (num 4)); (num 32, host (num 7))]
           (mounted (Some Canvas.fresh))).
  - vm_compute; discriminate.
  - repeat constructor; vm_compute; discriminate.
  - intros p. discriminate.
  - reflexivity.
Defined.





(** ** What a run of ticks adds up to *)

Lemma paintFrame_adds_two (currentParams : ZoomParams.t)
    (smoothedParams : ZoomState.t) (vid : Video) (surface : Surface)
    (ctx : Canvas.Context2D) :
  let ctx' := paintFrame currentParams smoothedParams vid surface ctx in
  Canvas.state ctx' = Canvas.state ctx
  /\ Canvas.saved ctx' = Canvas.saved ctx
  /\ List.length (Canvas.painted ctx')
     = (2 + List.length (Canvas.painted ctx))%nat.
Proof.
  intros ctx'. subst ctx'.
  destruct (ZoomParams.isActive currentParams) eqn:Hactive.
  - rewrite (paintFrame_zoomed _ _ _ _ _ Hactive). simpl.
    rewrite length_app. simpl. repeat split; lia.
  - rewrite (paintFrame_plain _ _ _ _ _ Hactive). simpl.
    rewrite length_app. simpl. repeat split; lia.
Qed.

Lemma run_with_context (zoomEffects : list ZoomEffect.t)
    (ticks : list (number * Host)) :
  forall (s : Refs) (ctx : Canvas.Context2D),
    contextRef s = Some ctx ->
    let composited := List.length (filter (fun tick => ready (snd tick)) ticks) in
    frameCountRef (run zoomEffects ticks s) = (composited + frameCountRef s)%nat
    /\ requested (run zoomEffects ticks s)
       = (List.length ticks + requested s)%nat
    /\ exists ctx',
         contextRef (run zoomEffects ticks s) = Some ctx'
         /\ Canvas.state ctx' = Canvas.state ctx
         /\ Canvas.saved ctx' = Canvas.saved ctx
         /\ List.length (Canvas.painted ctx')
            = (2 * composited + List.length (Canvas.painted ctx))%nat.
Proof.
  induction ticks as [| [timestamp host] ticks IH]; intros s ctx Hctx; simpl.
  - split; [reflexivity |]. split; [reflexivity |]. now exists ctx.
  - destruct (ready host) eqn:Hready.
    + destruct (ready_parts host Hready) as (vid & surface & Hv & Hc).
      pose proof (renderFrame_composited zoomEffects timestamp host s _ _ _
                    Hv Hc Hctx) as Hs'.
      set (s' := renderFrame zoomEffects timestamp host s) in *.
      destruct (paintFrame_adds_two
                  (calculateZoomParameters zoomEffects (currentTime vid))
                  (smoothedParamsOf zoomEffects vid s) vid surface ctx)
        as (Pst & Psv & Plen).
      destruct (IH s' _ ltac:(rewrite Hs'; reflexivity))
        as (Hcount & Hreq & ctx' & Hc' & Hst & Hsv & Hlen).
      assert (Hf : frameCountRef s' = S (frameCountRef s))
        by (rewrite Hs'; reflexivity).
      assert (Hr : requested s' = S (requested s))
        by (rewrite Hs'; reflexivity).
      rewrite Hcount, Hreq, Hf, Hr. simpl.
      split; [lia |]. split; [lia |].
      exists ctx'. split; [exact Hc' |].
      split; [now rewrite Hst |]. split; [now rewrite Hsv |].
      rewrite Hlen, Plen. lia.
    + pose proof (renderFrame_skipped zoomEffects timestamp host s
                    (or_introl Hready)) as Hs'.
      set (s' := renderFrame zoomEffects timestamp host s) in *.
      destruct (IH s' ctx ltac:(rewrite Hs'; exact Hctx))
        as (Hcount & Hreq & ctx' & Hc' & Hst & Hsv & Hlen).
      assert (Hf : frameCountRef s' = frameCountRef s)
        by (rewrite Hs'; reflexivity).
      assert (Hr : requested s' = S (requested s))
        by (rewrite Hs'; reflexivity).
      rewrite Hcount, Hreq, Hf, Hr. simpl.
      split; [reflexivity |]. split; [lia |].
      now exists ctx'.
Qed.

Lemma run_without_context (zoomEffects : list ZoomEffect.t)
    (ticks : list (number * Host)) :
  forall s : Refs,
    contextRef s = None ->
    let s' := run zoomEffects ticks s in
    contextRef s' = None
    /\ frameCountRef s' = frameCountRef s
    /\ prevZoomStateRef s' = prevZoomStateRef s
    /\ lastTimeRef s' = lastTimeRef s
    /\ lastVideoTimeRef s' = lastVideoTimeRef s
    /\ requested s' = (List.length ticks + requested s)%nat.
Proof.
  induction ticks as [| [timestamp host] ticks IH]; intros s Hctx; simpl.
  - split; [exact Hctx | repeat split; reflexivity].
  - pose proof (renderFrame_skipped zoomEffects timestamp host s
                  (or_intror Hctx)) as Hs'.
    set (s1 := renderFrame zoomEffects timestamp host s) in *.
    destruct (IH s1 ltac:(rewrite Hs'; exact Hctx))
      as (H1 & H2 & H3 & H4 & H5 & H6).
    rewrite H1, H2, H3, H4, H5, H6.
    subst s1. rewrite Hs'. simpl.
    repeat split; try reflexivity. lia.
Qed.

Lemma run_keeps_latest_handle (zoomEffects : list ZoomEffect.t)
    (ticks : list (number * Host)) :
  forall s : Refs,
    ticks <> [] ->
    animationRef (run zoomEffects ticks s)
    = Some (Nat.pred (requested (run zoomEffects ticks s))).
Proof.
  induction ticks as [| [timestamp host] ticks IH]; intros s Hne;
    [now elim Hne |].
  simpl. destruct ticks as [| tick ticks].
  - simpl. unfold renderFrame.
    destruct (video host), (canvas host), (contextRef s); reflexivity.
  - apply IH. discriminate.
Qed.

(** X9. What a run of ticks adds up to.  With a context, the frame
    counter grows by the number of ticks that found both the video and the
    canvas, every tick asks for one more frame, the paint log grows by
    exactly two operations per composited tick (one clear, one draw), and
    the drawing state and the stack of saved states are left as they were;
    the figure the statistics timer reports after resetting the counter is
    the number of composited ticks since.  Without a context no tick
    paints, counts or touches the smoothing state: the loop only keeps
    asking for frames.  The handle kept in [animationRef] is always that
    of the latest request. *)
Theorem loop_accounting :
  forall (zoomEffects : list ZoomEffect.t) (ticks : list (number * Host))
         (s : Refs),
    let composited := List.length (filter (fun tick => ready (snd tick)) ticks) in
    let s' := run zoomEffects ticks s in
    (forall ctx,
        contextRef s = Some ctx ->
        frameCountRef s' = (composited + frameCountRef s)%nat
        /\ requested s' = (List.length ticks + requested s)%nat
        /\ (exists ctx',
               contextRef s' = Some ctx'
               /\ Canvas.state ctx' = Canvas.state ctx
               /\ Canvas.saved ctx' = Canvas.saved ctx
               /\ List.length (Canvas.painted ctx')
                  = (2 * composited + List.length (Canvas.painted ctx))%nat)
        /\ fps (fst (sampleStats
                       (run zoomEffects ticks (snd (sampleStats s)))))
           = composited)
    /\ (contextRef s = None ->
        contextRef s' = None
        /\ frameCountRef s' = frameCountRef s
        /\ prevZoomStateRef s' = prevZoomStateRef s
        /\ lastTimeRef s' = lastTimeRef s
        /\ lastVideoTimeRef s' = lastVideoTimeRef s
        /\ requested s' = (List.length ticks + requested s)%nat)
    /\ (ticks <> [] -> animationRef s' = Some (Nat.pred (requested s'))).
Proof.
  intros zoomEffects ticks s composited s'.
  split; [| split].
  - intros ctx Hctx.
    destruct (run_with_context zoomEffects ticks s ctx Hctx)
      as (Hcount & Hreq & Hpaint).
    split; [exact Hcount |]. split; [exact Hreq |]. split; [exact Hpaint |].
    set (sampled := snd (sampleStats s)).
    destruct (run_with_context zoomEffects ticks sampled ctx Hctx)
      as (Hsampled & _).
    change (fps (fst (sampleStats (run zoomEffects ticks sampled))))
      with (frameCountRef (run zoomEffects ticks sampled)).
    rewrite Hsampled. fold composited. simpl frameCountRef. lia.
  - intros Hctx. now apply run_without_context.
  - apply run_keeps_latest_handle.
Qed.

(** Three ticks from the mount, the second one before the canvas is
    there: two frames counted, four paint operations, three requests. *)
Lemma loop_accounting_witness :
  let surface := {| width := num 640; height := num 360 |} in
  let vid := {| currentTime := 1 |} in
  let full := {| video := Some vid; canvas := Some surface |} in
  let bare := {| video := Some vid; canvas := None |} in
  let ticks := [(num 16, full); (num 32, bare); (num 48, full)] in
  let s' := run [] ticks (mounted (Some Canvas.fresh)) in
  frameCountRef s' = 2%nat
  /\ requested s' = 3%nat
  /\ (exists ctx',
         contextRef s' = Some ctx'
         /\ Canvas.state ctx' = Canvas.state Canvas.fresh
         /\ List.length (Canvas.painted ctx') = 4%nat)
  /\ animationRef s' = Some 2%nat
  /\ requested (run [] ticks (mounted None)) = 3%nat
  /\ frameCountRef (run [] ticks (mounted None)) = 0%nat.
Proof.
  intros surface vid full bare ticks s'.
  destruct (loop_accounting [] ticks (mounted (Some Canvas.fresh)))
    as (Hwith & _ & Hhandle).
  destruct (Hwith Canvas.fresh eq_refl)
    as (Hcount & Hreq & (ctx' & Hctx & Hst & _ & Hlen) & _).
  destruct (loop_accounting [] ticks (mounted None)) as (_ & Hwithout & _).
  destruct (Hwithout eq_refl) as (_ & Hc0 & _ & _ & _ & Hr0).
  split; [exact Hcount |]. split; [exact Hreq |].
  split; [exists ctx'; repeat split; assumption |].
  split; [apply Hhandle; discriminate |].
  split; [exact Hr0 | exact Hc0].
Defined.

(** * The editor *)

Lemma find_append {A : Type} (p : A -> bool) (l l' : list A) :
  find p (l ++ l')
  = match find p l with
    | Some x => Some x
    | None => find p l'
    end.
Proof.
  induction l as [| x l IH]; simpl; [reflexivity |].
  destruct (p x); [reflexivity | exact IH].
Qed.

Lemma resolve_active_iff_found (zoomEffects : list ZoomEffect.t) (t : number) :
  ZoomParams.isActive (calculateZoomParameters zoomEffects t) = true
  <-> exists effect, find (coversTime t) zoomEffects = Some effect.
Proof.
  unfold calculateZoomParameters. rewrite lookup_is_find.
  destruct (find (coversTime t) zoomEffects) as [effect |]; simpl; split.
  - intros _. now exists effect.
  - reflexivity.
  - discriminate.
  - intros [effect H]. discriminate.
Qed.

(** X10. Adding an effect appends it and selects it, and changes what
    the resolver returns only where nothing was active: at a time an
    effect already covered, the resolved parameters stay what they were;
    at a time nothing covered, they become those of the new effect inside
    its three seconds (in-out, level [1.5], centre of the frame) and stay
    the inactive ones outside. *)
Theorem addZoomEffect_resolution :
  forall (now : string) (startTime : number) (st : Editor.State) (t : number),
    let newEffect :=
      ZoomEffect.mk now startTime (num 3) (num 1.5) (num 0.5) (num 0.5)
        (Some InOut) in
    let st' := Editor.addZoomEffect now startTime st in
    let before := calculateZoomParameters (Editor.zoomEffects st) t in
    let after := calculateZoomParameters (Editor.zoomEffects st') t in
    Editor.zoomEffects st' = Editor.zoomEffects st ++ [newEffect]
    /\ Editor.selectedEffect st' = Some newEffect
    /\ (ZoomParams.isActive before = true -> after = before)
    /\ (ZoomParams.isActive before = false ->
        startTime <= t -> t <= startTime + num 3 ->
        after
        = ZoomParams.mk
            (1 + (num 1.5 - 1) * inOutProgress ((t - startTime) / num 3))
            (num 0.5) (num 0.5) true)
    /\ (ZoomParams.isActive before = false ->
        ~ (startTime <= t /\ t <= startTime + num 3) ->
        after = before).
Proof.
  intros now startTime st t newEffect st' before after.
  split; [reflexivity |]. split; [reflexivity |].
  assert (Hfind : find (coversTime t) (Editor.zoomEffects st')
                  = match find (coversTime t) (Editor.zoomEffects st) with
                    | Some x => Some x
                    | None => find (coversTime t) [newEffect]
                    end) by apply find_append.
  unfold before, after, calculateZoomParameters. rewrite !lookup_is_find.
  rewrite Hfind.
  destruct (find (coversTime t) (Editor.zoomEffects st)) as [effect |];
    simpl ZoomParams.isActive.
  - split; [reflexivity |]. split; [discriminate | discriminate].
  - split; [discriminate |]. split.
    + intros _ Hs He.
      assert (Hc : coversTime t newEffect = true)
        by (apply coversTime_inWindow; split; assumption).
      simpl find. rewrite Hc. reflexivity.
    + intros _ Hout.
      assert (Hc : coversTime t newEffect = false)
        by (apply coversTime_outside; exact Hout).
      simpl find. rewrite Hc. reflexivity.
Qed.

(** One effect over [2, 6] of level [2]; a second one added at [4] and
    asked at [5] (still the first one) and at [6.5] (the new one). *)
Lemma addZoomEffect_resolution_witness :
  let first := ZoomEffect.mk "a" (num 2) (num 4) (num 2) (num 0.25) (num 0.75) None in
  let st := Editor.mkState [first]%list None in
  let st' := Editor.addZoomEffect "b" (num 4) st in
  calculateZoomParameters (Editor.zoomEffects st') (num 5)
  = calculateZoomParameters [first]%list (num 5)
  /\ ZoomParams.isActive
       (calculateZoomParameters (Editor.zoomEffects st') (num 6.5)) = true
  /\ ZoomParams.centerX
       (calculateZoomParameters (Editor.zoomEffects st') (num 6.5)) = num 0.5
  /\ calculateZoomParameters (Editor.zoomEffects st') (num 8)
     = calculateZoomParameters [first]%list (num 8).
Proof.
  intros first st st'.
  destruct (addZoomEffect_resolution "b" (num 4) st (num 5))
    as (_ & _ & Hkeep & _ & _).
  destruct (addZoomEffect_resolution "b" (num 4) st (num 6.5))
    as (_ & _ & _ & Hnew & _).
  destruct (addZoomEffect_resolution "b" (num 4) st (num 8))
    as (_ & _ & _ & _ & Hout).
  split; [apply Hkeep; reflexivity |].
  fold st' in Hnew. rewrite Hnew;
    [| reflexivity | vm_compute; discriminate | vm_compute; discriminate].
  split; [reflexivity |]. split; [reflexivity |].
  apply Hout; [reflexivity |].
  intros [_ H]. vm_compute in H. now apply H.
Defined.

Lemma update_unlisted (updatedEffect : ZoomEffect.t) (l : list ZoomEffect.t) :
  (forall effect, In effect l ->
     ZoomEffect.id effect <> ZoomEffect.id updatedEffect) ->
  map (fun effect =>
         if String.eqb (ZoomEffect.id effect) (ZoomEffect.id updatedEffect)
         then updatedEffect else effect) l = l.
Proof.
  induction l as [| x l IH]; intros Hids; simpl; [reflexivity |].
  rewrite (proj2 (String.eqb_neq _ _) (Hids x (or_introl eq_refl))).
  f_equal. apply IH. intros effect Hin. apply Hids. now right.
Qed.

(** X11. Updating replaces, in place, every effect that carries the id
    of the updated one and nothing else: the ids of the collection and
    their order are the same afterwards, an effect is in the new collection
    exactly when it is the updated one (and the id was there) or an old
    effect with another id, updating twice is updating once, and when no
    effect carries the id the collection is unchanged while the selection
    still moves to the updated effect. *)
Theorem updateZoomEffect_in_place :
  forall (updatedEffect : ZoomEffect.t) (st : Editor.State),
    let st' := Editor.updateZoomEffect updatedEffect st in
    map ZoomEffect.id (Editor.zoomEffects st')
      = map ZoomEffect.id (Editor.zoomEffects st)
    /\ (forall effect,
          In effect (Editor.zoomEffects st') <->
          (effect = updatedEffect
           /\ exists old, In old (Editor.zoomEffects st)
                          /\ ZoomEffect.id old = ZoomEffect.id updatedEffect)
          \/ (In effect (Editor.zoomEffects st)
              /\ ZoomEffect.id effect <> ZoomEffect.id updatedEffect))
    /\ Editor.updateZoomEffect updatedEffect st' = st'
    /\ Editor.selectedEffect st' = Some updatedEffect
    /\ ((forall effect, In effect (Editor.zoomEffects st) ->
           ZoomEffect.id effect <> ZoomEffect.id updatedEffect) ->
        Editor.zoomEffects st' = Editor.zoomEffects st).
Proof.
  intros updatedEffect st st'. subst st'. destruct st as [l sel]. simpl.
  split; [| split; [| split; [| split]]].
  - rewrite map_map. apply map_ext_in. intros effect _.
    destruct (String.eqb (ZoomEffect.id effect) (ZoomEffect.id updatedEffect))
      eqn:E; [| reflexivity].
    apply String.eqb_eq in E. now symmetry.
  - intros effect. rewrite in_map_iff. split.
    + intros (old & Heq & Hin).
      destruct (String.eqb (ZoomEffect.id old) (ZoomEffect.id updatedEffect))
        eqn:E.
      * left. split; [now symmetry |]. exists old.
        split; [assumption | now apply String.eqb_eq].
      * right. subst effect. split; [assumption | now apply String.eqb_neq].
    + intros [[-> (old & Hin & Hid)] | [Hin Hid]].
      * exists old. split; [| assumption].
        now rewrite (proj2 (String.eqb_eq _ _) Hid).
      * exists effect. split; [| assumption].
        now rewrite (proj2 (String.eqb_neq _ _) Hid).
  - unfold Editor.updateZoomEffect. simpl. f_equal.
    rewrite map_map. apply map_ext. intros effect.
    destruct (String.eqb (ZoomEffect.id effect) (ZoomEffect.id updatedEffect))
      eqn:E; [now rewrite String.eqb_refl | now rewrite E].
  - reflexivity.
  - apply update_unlisted.
Qed.

(** Two effects, the second one given a new level; then an update for an
    id that is not there. *)
Lemma updateZoomEffect_in_place_witness :
  let a := ZoomEffect.mk "a" (num 2) (num 4) (num 2) (num 0.5) (num 0.5) None in
  let b := ZoomEffect.mk "b" (num 7) (num 3) (num 2) (num 0.5) (num 0.5) None in
  let b' := ZoomEffect.mk "b" (num 7) (num 3) (num 3) (num 0.5) (num 0.5) None in
  let c := ZoomEffect.mk "c" (num 7) (num 3) (num 3) (num 0.5) (num 0.5) None in
  let st := Editor.mkState [a; b] (Some b) in
  In b' (Editor.zoomEffects (Editor.updateZoomEffect b' st))
  /\ Editor.zoomEffects (Editor.updateZoomEffect c st) = [a; b]
  /\ Editor.selectedEffect (Editor.updateZoomEffect c st) = Some c.
Proof.
  intros a b b' c st.
  destruct (updateZoomEffect_in_place b' st) as (_ & Hin & _).
  destruct (updateZoomEffect_in_place c st) as (_ & _ & _ & Hsel & Hsame).
  split; [| split; [| exact Hsel]].
  - apply Hin. left. split; [reflexivity |].
    exists b. split; [right; left; reflexivity | reflexivity].
  - apply Hsame. intros effect [<- | [<- | []]]; discriminate.
Defined.

Lemma filter_all {A : Type} (p : A -> bool) (l : list A) :
  (forall x, In x l -> p x = true) -> filter p l = l.
Proof.
  induction l as [| x l IH]; intros Hall; simpl; [reflexivity |].
  rewrite (Hall x (or_introl eq_refl)). f_equal.
  apply IH. intros y Hy. apply Hall. now right.
Qed.

(** X12. Deleting removes every effect that carries the id and keeps the
    others in their order; deleting an id no effect carries changes
    nothing in the collection; deleting twice is deleting once; and
    deleting the effect that was just added, when its id was not in use,
    gives back the collection as it was, with nothing selected. *)
Theorem deleteZoomEffect_removes_id :
  forall (effectId : string) (st : Editor.State),
    let st' := Editor.deleteZoomEffect effectId st in
    (forall effect,
        In effect (Editor.zoomEffects st') <->
        In effect (Editor.zoomEffects st) /\ ZoomEffect.id effect <> effectId)
    /\ ((forall effect, In effect (Editor.zoomEffects st) ->
           ZoomEffect.id effect <> effectId) ->
        Editor.zoomEffects st' = Editor.zoomEffects st)
    /\ Editor.deleteZoomEffect effectId st' = st'
    /\ (forall startTime,
          (forall effect, In effect (Editor.zoomEffects st) ->
             ZoomEffect.id effect <> effectId) ->
          Editor.deleteZoomEffect effectId
            (Editor.addZoomEffect effectId startTime st)
          = Editor.mkState (Editor.zoomEffects st) None).
Proof.
  intros effectId st st'. subst st'. destruct st as [l sel]. simpl.
  assert (Hkeep : (forall effect, In effect l ->
                     ZoomEffect.id effect <> effectId) ->
                  filter (fun effect =>
                            negb (String.eqb (ZoomEffect.id effect) effectId)) l
                  = l).
  { intros Hids. apply filter_all. intros effect Hin.
    apply negb_true_iff, String.eqb_neq. now apply Hids. }
  split; [| split; [| split]].
  - intros effect. rewrite filter_In, negb_true_iff, String.eqb_neq.
    reflexivity.
  - exact Hkeep.
  - unfold Editor.deleteZoomEffect. simpl. f_equal.
    + apply filter_all. intros effect Hin.
      apply filter_In in Hin. apply Hin.
    + destruct sel as [selected |]; [| reflexivity].
      destruct (String.eqb (ZoomEffect.id selected) effectId) eqn:E;
        [reflexivity | now rewrite E].
  - intros startTime Hids.
    unfold Editor.deleteZoomEffect, Editor.addZoomEffect. simpl.
    rewrite String.eqb_refl, filter_app, (Hkeep Hids). simpl.
    rewrite String.eqb_refl. simpl. now rewrite app_nil_r.
Qed.

(** Add at [4] under a fresh id and delete it again. *)
Lemma deleteZoomEffect_removes_id_witness :
  let a := ZoomEffect.mk "a" (num 2) (num 4) (num 2) (num 0.5) (num 0.5) None in
  let st := Editor.mkState [a]%list (Some a) in
  Editor.deleteZoomEffect "b" (Editor.addZoomEffect "b" (num 4) st)
  = Editor.mkState [a]%list None
  /\ Editor.zoomEffects (Editor.deleteZoomEffect "c" st) = [a]%list.
Proof.
  intros a st.
  destruct (deleteZoomEffect_removes_id "b" st) as (_ & _ & _ & Hround).
  destruct (deleteZoomEffect_removes_id "c" st) as (_ & Hsame & _).
  split.
  - apply (Hround (num 4)). intros effect [<- | []]. discriminate.
  - apply Hsame. intros effect [<- | []]. discriminate.
Defined.

(** X13. The editor keeps the selection inside the collection: adding
    selects the effect it appended; deleting keeps a listed selection
    listed or clears it; updating keeps it listed whenever some effect
    carries the id of the updated one. *)
Theorem selection_stays_listed :
  forall st : Editor.State,
    (forall now startTime,
        selectionListed (Editor.addZoomEffect now startTime st))
    /\ (forall effectId,
          selectionListed st ->
          selectionListed (Editor.deleteZoomEffect effectId st))
    /\ (forall updatedEffect old,
          In old (Editor.zoomEffects st) ->
          ZoomEffect.id old = ZoomEffect.id updatedEffect ->
          selectionListed (Editor.updateZoomEffect updatedEffect st)).
Proof.
  intros [l sel]. unfold selectionListed. simpl.
  split; [| split].
  - intros now startTime selected [= <-].
    apply in_or_app. right. now left.
  - intros effectId Hlisted selected.
    destruct sel as [current |]; [| discriminate].
    destruct (String.eqb (ZoomEffect.id current) effectId) eqn:E;
      [discriminate |].
    intros [= <-]. apply filter_In. split; [now apply Hlisted |].
    now rewrite E.
  - intros updatedEffect old Hin Hid selected [= <-].
    apply in_map_iff. exists old. split; [| assumption].
    now rewrite (proj2 (String.eqb_eq _ _) Hid).
Qed.

(** Delete the other effect, then update the selected one. *)
Lemma selection_stays_listed_witness :
  let a := ZoomEffect.mk "a" (num 2) (num 4) (num 2) (num 0.5) (num 0.5) None in
  let b := ZoomEffect.mk "b" (num 7) (num 3) (num 2) (num 0.5) (num 0.5) None in
  let b' := ZoomEffect.mk "b" (num 7) (num 3) (num 3) (num 0.5) (num 0.5) None in
  let st := Editor.mkState [a; b] (Some b) in
  selectionListed (Editor.deleteZoomEffect "a" st)
  /\ selectionListed (Editor.updateZoomEffect b' st).
Proof.
  intros a b b' st.
  destruct (selection_stays_listed st) as (_ & Hdelete & Hupdate).
  split.
  - apply Hdelete. intros selected [= <-]. right. now left.
  - apply (Hupdate b' b); [right; now left | reflexivity].
Defined.

(** * The timeline *)

Lemma max_cases (x y : number) :
  (x < y /\ Math.max x y = y) \/ (y <= x /\ Math.max x y = x).
Proof.
  unfold Math.max. destruct (ltb_cases x y) as [[H ->] | [H ->]]; auto.
Qed.

Lemma min_cases (x y : number) :
  (y < x /\ Math.min x y = y) \/ (x <= y /\ Math.min x y = x).
Proof.
  unfold Math.min. destruct (ltb_cases y x) as [[H ->] | [H ->]]; auto.
Qed.

(** Splits on the [Math.max] and [Math.min] of a goal and sends each case
    to linear arithmetic over [Q]. *)
Ltac clamp_cases :=
  repeat match goal with
         | |- context [Math.max ?x ?y] =>
             let H := fresh "Hmax" in
             let E := fresh "Emax" in
             destruct (max_cases x y) as [[H E] | [H E]];
             rewrite E in *; clear E
         | |- context [Math.min ?x ?y] =>
             let H := fresh "Hmin" in
             let E := fresh "Emin" in
             destruct (min_cases x y) as [[H E] | [H E]];
             rewrite E in *; clear E
         | _ : context [Math.max ?x ?y] |- _ =>
             let H := fresh "Hmax" in
             let E := fresh "Emax" in
             destruct (max_cases x y) as [[H E] | [H E]];
             rewrite E in *; clear E
         | _ : context [Math.min ?x ?y] |- _ =>
             let H := fresh "Hmin" in
             let E := fresh "Emin" in
             destruct (min_cases x y) as [[H E] | [H E]];
             rewrite E in *; clear E
         end.

(** X14. Dragging the start edge never moves the start before [0] nor,
    when the end is at least half a second into the video, later than
    half a second before the end; the start follows the mouse as long as
    the mouse stays between [0] and half a second before the end; the new
    duration is what is left from the new start to the old end, at least
    half a second when the end is at least half a second into the video;
    and an effect that ends within the first half second is put at [0]
    with its end as its duration. *)
Theorem drag_start_edge :
  forall (props : Timeline.Props) (mouseTime : number) (effect : ZoomEffect.t),
    let moved := Timeline.dragged props (Some Timeline.StartEdge) mouseTime effect in
    let finish := ZoomEffect.startTime effect + ZoomEffect.duration effect in
    ZoomEffect.duration moved = finish - ZoomEffect.startTime moved
    /\ 0 <= ZoomEffect.startTime moved
    /\ (num 0.5 <= finish -> ZoomEffect.startTime moved <= finish - num 0.5)
    /\ (0 <= mouseTime -> mouseTime <= finish - num 0.5 ->
        ZoomEffect.startTime moved = mouseTime)
    /\ (num 0.5 <= finish -> num 0.5 <= ZoomEffect.duration moved)
    /\ (finish < num 0.5 ->
        ZoomEffect.startTime moved = 0 /\ ZoomEffect.duration moved = finish).
Proof.
  intros props mouseTime effect moved finish. subst moved finish. simpl.
  split; [reflexivity |].
  split; [clamp_cases; to_Q; lra |].
  split; [intros H; clamp_cases; to_Q; lra |].
  split; [intros H0 H1; clamp_cases; to_Q; lra |].
  split; [intros H; clamp_cases; to_Q; lra |].
  intros H. split; clamp_cases; to_Q; lra.
Qed.

(** An effect over [2, 6]: the start dragged to [3], and dragged past the
    end. *)
Lemma drag_start_edge_witness :
  let props := Timeline.mkProps (num 10) [] in
  let effect := ZoomEffect.mk "a" (num 2) (num 4) (num 2) (num 0.5) (num 0.5) None in
  ZoomEffect.startTime
    (Timeline.dragged props (Some Timeline.StartEdge) (num 3) effect) = num 3
  /\ num 0.5
     <= ZoomEffect.duration
          (Timeline.dragged props (Some Timeline.StartEdge) (num 9) effect).
Proof.
  intros props effect.
  destruct (drag_start_edge props (num 3) effect) as (_ & _ & _ & Hfollow & _).
  destruct (drag_start_edge props (num 9) effect) as (_ & _ & _ & _ & Hhalf & _).
  split.
  - apply Hfollow; vm_compute; discriminate.
  - apply Hhalf. vm_compute; discriminate.
Defined.

(** X15. Dragging the end edge leaves the start where it is and never
    gives the effect more than the room between its start and the end of
    the video; the duration follows the mouse, being the mouse time less
    the start, while that is at least half a second and at most the room;
    the effect keeps at least half a second exactly when the room is at
    least half a second, and an effect that starts at or after the end of
    the video comes out with the room, zero or negative, as its
    duration. *)
Theorem drag_end_edge :
  forall (props : Timeline.Props) (mouseTime : number) (effect : ZoomEffect.t),
    let moved := Timeline.dragged props (Some Timeline.EndEdge) mouseTime effect in
    let room := Timeline.duration props - ZoomEffect.startTime effect in
    let asked := mouseTime - ZoomEffect.startTime effect in
    ZoomEffect.startTime moved = ZoomEffect.startTime effect
    /\ ZoomEffect.duration moved <= room
    /\ (num 0.5 <= asked -> asked <= room -> ZoomEffect.duration moved = asked)
    /\ (num 0.5 <= ZoomEffect.duration moved <-> num 0.5 <= room)
    /\ (room <= 0 -> ZoomEffect.duration moved = room).
Proof.
  intros props mouseTime effect moved room asked. subst moved room asked. simpl.
  split; [reflexivity |].
  split; [clamp_cases; to_Q; lra |].
  split; [intros H0 H1; clamp_cases; to_Q; lra |].
  split; [split; intros H; clamp_cases; to_Q; lra |].
  intros H. clamp_cases; to_Q; lra.
Qed.

(** On a ten second video: the end of an effect over [2, 6] dragged to
    [8]; and an effect that starts at the very end. *)
Lemma drag_end_edge_witness :
  let props := Timeline.mkProps (num 10) [] in
  let effect := ZoomEffect.mk "a" (num 2) (num 4) (num 2) (num 0.5) (num 0.5) None in
  let late := ZoomEffect.mk "b" (num 10) (num 3) (num 2) (num 0.5) (num 0.5) None in
  ZoomEffect.duration
    (Timeline.dragged props (Some Timeline.EndEdge) (num 8) effect) = num 6
  /\ ZoomEffect.duration
       (Timeline.dragged props (Some Timeline.EndEdge) (num 12) late) = 0.
Proof.
  intros props effect late.
  destruct (drag_end_edge props (num 8) effect) as (_ & _ & Hfollow & _).
  destruct (drag_end_edge props (num 12) late) as (_ & _ & _ & _ & Hnone).
  split.
  - rewrite Hfollow by (vm_compute; discriminate).
    apply Qc_is_canon. reflexivity.
  - rewrite Hnone by (vm_compute; discriminate).
    apply Qc_is_canon. reflexivity.
Defined.

(** X16. Dragging the whole effect keeps its duration and never moves
    the start before [0] nor, when the effect is not longer than the
    video, later than the length of the video less the duration; the
    start is the mouse time less half the duration as long as that is
    inside these two bounds; an effect longer than the video is put at
    [0]. *)
Theorem drag_whole_effect :
  forall (props : Timeline.Props) (mouseTime : number) (effect : ZoomEffect.t),
    let moved := Timeline.dragged props None mouseTime effect in
    let length := ZoomEffect.duration effect in
    let latest := Timeline.duration props - length in
    let asked := mouseTime - length / num 2 in
    ZoomEffect.duration moved = length
    /\ 0 <= ZoomEffect.startTime moved
    /\ (0 <= latest -> ZoomEffect.startTime moved <= latest)
    /\ (0 <= asked -> asked <= latest -> ZoomEffect.startTime moved = asked)
    /\ (Timeline.duration props < length -> ZoomEffect.startTime moved = 0).
Proof.
  intros props mouseTime effect moved length latest asked.
  subst moved length latest asked. simpl.
  split; [reflexivity |].
  split; [clamp_cases; to_Q; lra |].
  split; [intros H; clamp_cases; to_Q; lra |].
  split; [intros H0 H1; clamp_cases; to_Q; lra |].
  intros H. clamp_cases; to_Q; lra.
Qed.

(** An effect of four seconds on a ten second video, dragged with the
    mouse at [5] and at [9.5]. *)
Lemma drag_whole_effect_witness :
  let props := Timeline.mkProps (num 10) [] in
  let effect := ZoomEffect.mk "a" (num 2) (num 4) (num 2) (num 0.5) (num 0.5) None in
  ZoomEffect.startTime (Timeline.dragged props None (num 5) effect) = num 3
  /\ ZoomEffect.startTime (Timeline.dragged props None (num 9.5) effect)
     <= num 6.
Proof.
  intros props effect.
  destruct (drag_whole_effect props (num 5) effect) as (_ & _ & _ & Hmid & _).
  destruct (drag_whole_effect props (num 9.5) effect) as (_ & _ & Hin & _).
  split.
  - rewrite Hmid by (vm_compute; discriminate).
    apply Qc_is_canon. reflexivity.
  - eapply Qcle_trans; [apply Hin; vm_compute; discriminate |].
    vm_compute; discriminate.
Defined.

(** X17. An effect that sits on the timeline (start at or after [0], at
    least half a second long, end inside the video) keeps, after any of
    the three drags and wherever the mouse is, a start at or after [0] and
    a positive duration, as the resolver needs.  The drag changes nothing
    but the start and the duration. *)
Theorem drag_keeps_duration_positive :
  forall (props : Timeline.Props) (edge : option Timeline.Edge)
         (mouseTime : number) (effect : ZoomEffect.t),
    onTimeline (Timeline.duration props) effect ->
    let moved := Timeline.dragged props edge mouseTime effect in
    0 <= ZoomEffect.startTime moved
    /\ 0 < ZoomEffect.duration moved
    /\ ZoomEffect.id moved = ZoomEffect.id effect
    /\ ZoomEffect.level moved = ZoomEffect.level effect
    /\ ZoomEffect.centerX moved = ZoomEffect.centerX effect
    /\ ZoomEffect.centerY moved = ZoomEffect.centerY effect
    /\ ZoomEffect.zoomStyle moved = ZoomEffect.zoomStyle effect.
Proof.
  intros props edge mouseTime effect (Hs & Hd & He) moved. subst moved.
  split; [destruct edge as [[|] |]; simpl; clamp_cases; to_Q; lra |].
  split; [destruct edge as [[|] |]; simpl; clamp_cases; to_Q; lra |].
  destruct edge as [[|] |]; simpl; repeat split; reflexivity.
Qed.

(** An effect over [2, 6] on a ten second video, each edge and then the
    whole effect dragged far outside the video. *)
Lemma drag_keeps_duration_positive_witness :
  let props := Timeline.mkProps (num 10) [] in
  let effect := ZoomEffect.mk "a" (num 2) (num 4) (num 2) (num 0.5) (num 0.5) None in
  0 < ZoomEffect.duration
        (Timeline.dragged props (Some Timeline.StartEdge) (num 50) effect)
  /\ 0 < ZoomEffect.duration
          (Timeline.dragged props (Some Timeline.EndEdge) (num (-50)) effect)
  /\ 0 < ZoomEffect.duration (Timeline.dragged props None (num 50) effect).
Proof.
  intros props effect.
  assert (Hon : onTimeline (Timeline.duration props) effect)
    by (repeat split; vm_compute; discriminate).
  split; [| split].
  - apply (drag_keeps_duration_positive props (Some Timeline.StartEdge)
             (num 50) effect Hon).
  - apply (drag_keeps_duration_positive props (Some Timeline.EndEdge)
             (num (-50)) effect Hon).
  - apply (drag_keeps_duration_positive props None (num 50) effect Hon).
Defined.

Lemma find_by_id_listed (effectId : string) (l : list ZoomEffect.t)
    (effect : ZoomEffect.t) :
  find (fun effect => String.eqb (ZoomEffect.id effect) effectId) l
    = Some effect ->
  In effect l /\ ZoomEffect.id effect = effectId.
Proof.
  intros H. destruct (find_some _ _ H) as [Hin Hid].
  split; [assumption | now apply String.eqb_eq].
Qed.

(** X18. A move of the mouse reports an update only during a drag of a
    named effect that is in the collection, with the timeline element
    there, and at least sixteen milliseconds after the last move it took
    into account; the update is the dragged copy of that effect and
    carries its id, and the time of the move is remembered, so that a
    further move less than sixteen milliseconds later reports nothing and
    changes nothing. *)
Theorem mouse_move_is_throttled :
  forall (props : Timeline.Props) (st : Timeline.State)
         (timelineRef : option number) (now clientX : number)
         (st' : Timeline.State) (call : Timeline.Callback),
    Timeline.handleMouseMove props st timelineRef now clientX
      = (st', Some call) ->
    Timeline.isDragging st = true
    /\ Timeline.RENDER_BUFFER_MS <= now - Timeline.lastRenderTimeRef st
    /\ st' = Timeline.touchRenderTime st now
    /\ (exists draggedId rectLeft effect,
           Timeline.draggedEffect st = Some draggedId
           /\ draggedId <> EmptyString
           /\ timelineRef = Some rectLeft
           /\ In effect (Timeline.zoomEffects props)
           /\ ZoomEffect.id effect = draggedId
           /\ call
              = Timeline.OnUpdateEffect
                  (Timeline.dragged props (Timeline.draggedEdge st)
                     (Timeline.positionToTime props st (clientX - rectLeft))
                     effect)
           /\ (forall updated, call = Timeline.OnUpdateEffect updated ->
                 ZoomEffect.id updated = draggedId))
    /\ (forall ref' now' clientX',
          now' - now < Timeline.RENDER_BUFFER_MS ->
          Timeline.handleMouseMove props st' ref' now' clientX' = (st', None)).
Proof.
  intros props st timelineRef now clientX st' call.
  unfold Timeline.handleMouseMove.
  destruct (Timeline.isDragging st) eqn:Hdrag; [| discriminate].
  destruct (Timeline.draggedEffect st) as [draggedId |] eqn:Hid;
    [| discriminate].
  destruct timelineRef as [rectLeft |]; [| discriminate].
  destruct (String.eqb draggedId EmptyString) eqn:Hempty; [discriminate |].
  destruct (ltb_cases (now - Timeline.lastRenderTimeRef st)
              Timeline.RENDER_BUFFER_MS) as [[Hlt ->] | [Hge ->]];
    [discriminate |].
  destruct (find (fun effect => String.eqb (ZoomEffect.id effect) draggedId)
              (Timeline.zoomEffects props)) as [effect |] eqn:Hfind;
    [| discriminate].
  intros [= <- <-].
  destruct (find_by_id_listed _ _ _ Hfind) as [Hin Heq].
  split; [reflexivity |]. split; [exact Hge |]. split; [reflexivity |].
  split.
  - exists draggedId, rectLeft, effect.
    split; [reflexivity |]. split; [now apply String.eqb_neq |].
    split; [reflexivity |]. split; [exact Hin |]. split; [exact Heq |].
    split; [reflexivity |].
    intros updated [= <-].
    destruct (Timeline.draggedEdge st) as [[|] |]; exact Heq.
  - intros ref' now' clientX' Hsoon. simpl.
    rewrite Hdrag, Hid. destruct ref' as [rectLeft' |]; [| reflexivity].
    rewrite Hempty. apply ltb_lt in Hsoon. now rewrite Hsoon.
Qed.

(** A drag of the end edge of the effect over [2, 6], the mouse at three
    quarters of a 400 pixel timeline of a ten second video, twenty
    milliseconds after the last move. *)
Lemma mouse_move_is_throttled_witness :
  let effect := ZoomEffect.mk "a" (num 2) (num 4) (num 2) (num 0.5) (num 0.5) None in
  let props := Timeline.mkProps (num 10) [effect]%list in
  let st :=
    Timeline.mkState true (Some "a"%string) (Some Timeline.EndEdge)
      (num 400) (num 100) in
  Timeline.RENDER_BUFFER_MS <= num 120 - num 100
  /\ Timeline.handleMouseMove props (Timeline.touchRenderTime st (num 120))
       (Some 0) (num 130) (num 320)
     = (Timeline.touchRenderTime st (num 120), None).
Proof.
  intros effect props st.
  destruct (mouse_move_is_throttled props st (Some (num 20)) (num 120)
              (num 320) (Timeline.touchRenderTime st (num 120))
              (Timeline.OnUpdateEffect
                 (Timeline.dragged props (Some Timeline.EndEdge)
                    (Timeline.positionToTime props st (num 320 - num 20))
                    effect)) eq_refl)
    as (_ & Hlate & _ & _ & Hsilent).
  split; [exact Hlate |].
  apply Hsilent. reflexivity.
Defined.

Lemma ratio_positive (w d : number) : 0 < w -> 0 < d -> 0 < w / d.
Proof.
  intros Hw Hd. to_Q. apply Qmult_lt_0_compat; [assumption |].
  now apply Qinv_lt_0_compat.
Qed.

Lemma timeToPosition_scales (props : Timeline.Props) (st : Timeline.State)
    (time : number) :
  Timeline.timeToPosition props st time
  = time * (Timeline.timelineWidth st / Timeline.duration props).
Proof.
  unfold Timeline.timeToPosition, Qcdiv, number in *. ring.
Qed.

Lemma positionToTime_scales (props : Timeline.Props) (st : Timeline.State)
    (position : number) :
  Timeline.positionToTime props st position
  = position * (Timeline.duration props / Timeline.timelineWidth st).
Proof.
  unfold Timeline.positionToTime, Qcdiv, number in *. ring.
Qed.

Lemma timeToPosition_monotone (props : Timeline.Props) (st : Timeline.State)
    (t1 t2 : number) :
  0 < Timeline.duration props ->
  0 < Timeline.timelineWidth st ->
  t1 <= t2 ->
  Timeline.timeToPosition props st t1 <= Timeline.timeToPosition props st t2.
Proof.
  intros Hd Hw H. rewrite !timeToPosition_scales.
  apply Qcmult_le_compat_r; [assumption |].
  apply Qclt_le_weak. now apply ratio_positive.
Qed.

Lemma positionToTime_monotone (props : Timeline.Props) (st : Timeline.State)
    (p1 p2 : number) :
  0 < Timeline.duration props ->
  0 < Timeline.timelineWidth st ->
  p1 <= p2 ->
  Timeline.positionToTime props st p1 <= Timeline.positionToTime props st p2.
Proof.
  intros Hd Hw H. rewrite !positionToTime_scales.
  apply Qcmult_le_compat_r; [assumption |].
  apply Qclt_le_weak. now apply ratio_positive.
Qed.

Lemma timeToPosition_ends (props : Timeline.Props) (st : Timeline.State) :
  Timeline.duration props <> 0 ->
  Timeline.timeToPosition props st 0 = 0
  /\ Timeline.timeToPosition props st (Timeline.duration props)
     = Timeline.timelineWidth st.
Proof.
  intros Hd. unfold Timeline.timeToPosition, number in *.
  split; now field.
Qed.

Lemma positionToTime_ends (props : Timeline.Props) (st : Timeline.State) :
  Timeline.timelineWidth st <> 0 ->
  Timeline.positionToTime props st 0 = 0
  /\ Timeline.positionToTime props st (Timeline.timelineWidth st)
     = Timeline.duration props.
Proof.
  intros Hw. unfold Timeline.positionToTime, number in *.
  split; now field.
Qed.

(** X19. On a timeline with a positive width and a video with a positive
    duration, the conversion from times to positions keeps the order and
    puts the start of the video at position [0] and its end at the full
    width, so that every time of the video has its position on the strip;
    the conversion from positions to times keeps the order as well and
    takes position [0] to time [0] and the full width to the end of the
    video, so that every position of the strip is a time of the video. *)
Theorem timeline_positions_in_order :
  forall (props : Timeline.Props) (st : Timeline.State),
    0 < Timeline.duration props ->
    0 < Timeline.timelineWidth st ->
    (forall t1 t2,
        t1 <= t2 ->
        Timeline.timeToPosition props st t1
        <= Timeline.timeToPosition props st t2)
    /\ Timeline.timeToPosition props st 0 = 0
    /\ Timeline.timeToPosition props st (Timeline.duration props)
       = Timeline.timelineWidth st
    /\ (forall t,
          0 <= t -> t <= Timeline.duration props ->
          0 <= Timeline.timeToPosition props st t
          /\ Timeline.timeToPosition props st t <= Timeline.timelineWidth st)
    /\ (forall p1 p2,
          p1 <= p2 ->
          Timeline.positionToTime props st p1
          <= Timeline.positionToTime props st p2)
    /\ Timeline.positionToTime props st 0 = 0
    /\ Timeline.positionToTime props st (Timeline.timelineWidth st)
       = Timeline.duration props
    /\ (forall p,
          0 <= p -> p <= Timeline.timelineWidth st ->
          0 <= Timeline.positionToTime props st p
          /\ Timeline.positionToTime props st p <= Timeline.duration props).
Proof.
  intros props st Hd Hw.
  destruct (timeToPosition_ends props st (positive_not_zero _ Hd)) as [T0 T1].
  destruct (positionToTime_ends props st (positive_not_zero _ Hw)) as [P0 P1].
  split; [intros t1 t2; now apply timeToPosition_monotone |].
  split; [exact T0 |]. split; [exact T1 |].
  split.
  { intros t H0 H1. split.
    - rewrite <- T0. now apply timeToPosition_monotone.
    - pose proof (timeToPosition_monotone props st _ _ Hd Hw H1) as H.
      now rewrite T1 in H. }
  split; [intros p1 p2; now apply positionToTime_monotone |].
  split; [exact P0 |]. split; [exact P1 |].
  intros q H0 H1. split.
  - rewrite <- P0. now apply positionToTime_monotone.
  - pose proof (positionToTime_monotone props st _ _ Hd Hw H1) as H.
    now rewrite P1 in H.
Qed.

(** A ten second video on a 400 pixel timeline: second [2.5] is on the
    strip, before second [7], and the end of the video is pixel [400]. *)
Lemma timeline_positions_in_order_witness :
  let props := Timeline.mkProps (num 10) [] in
  let st := Timeline.mkState false None None (num 400) 0 in
  Timeline.timeToPosition props st (num 2.5)
  <= Timeline.timeToPosition props st (num 7)
  /\ (0 <= Timeline.timeToPosition props st (num 2.5)
      /\ Timeline.timeToPosition props st (num 2.5) <= num 400)
  /\ Timeline.timeToPosition props st (num 10) = num 400.
Proof.
  intros props st.
  destruct (timeline_positions_in_order props st)
    as (Horder & _ & Hend & Hstrip & _).
  - reflexivity.
  - reflexivity.
  - split; [apply Horder; vm_compute; discriminate |].
    split; [apply Hstrip; vm_compute; discriminate | exact Hend].
Defined.

Lemma clickedOn_strip (props : Timeline.Props) (st : Timeline.State)
    (clickPosition : number) (effect : ZoomEffect.t) :
  Timeline.clickedOn props st clickPosition effect = true
  <-> Timeline.timeToPosition props st (ZoomEffect.startTime effect)
      <= clickPosition
      /\ clickPosition
         <= Timeline.timeToPosition props st
              (ZoomEffect.startTime effect + ZoomEffect.duration effect).
Proof.
  unfold Timeline.clickedOn. rewrite andb_true_iff, geb_ge, leb_le.
  reflexivity.
Qed.

Lemma clickedOn_off_strip (props : Timeline.Props) (st : Timeline.State)
    (clickPosition : number) (effect : ZoomEffect.t) :
  Timeline.clickedOn props st clickPosition effect = false
  <-> ~ (Timeline.timeToPosition props st (ZoomEffect.startTime effect)
         <= clickPosition
         /\ clickPosition
            <= Timeline.timeToPosition props st
                 (ZoomEffect.startTime effect + ZoomEffect.duration effect)).
Proof.
  rewrite <- clickedOn_strip.
  destruct (Timeline.clickedOn props st clickPosition effect); split;
    congruence.
Qed.

(** X20. A click on the timeline selects the first effect of the
    collection whose strip, from the position of its start to the position
    of its end, ends included, holds the clicked position; when no strip
    holds it, the click asks for a new effect at the time of the clicked
    position; it never asks for an update, and without the timeline
    element it does nothing. *)
Theorem click_selects_or_adds :
  forall (props : Timeline.Props) (st : Timeline.State)
         (rectLeft clientX : number),
    let clickPosition := clientX - rectLeft in
    let onStrip effect :=
      Timeline.timeToPosition props st (ZoomEffect.startTime effect)
      <= clickPosition
      /\ clickPosition
         <= Timeline.timeToPosition props st
              (ZoomEffect.startTime effect + ZoomEffect.duration effect) in
    let clicked := Timeline.handleTimelineClick props st (Some rectLeft) clientX in
    (forall effect,
        clicked = Some (Timeline.OnSelectEffect (Some effect))
        <-> exists before after,
              Timeline.zoomEffects props = before ++ effect :: after
              /\ onStrip effect
              /\ forall other, In other before -> ~ onStrip other)
    /\ (forall time,
          clicked = Some (Timeline.OnAddEffect time)
          <-> time = Timeline.positionToTime props st clickPosition
              /\ forall effect,
                   In effect (Timeline.zoomEffects props) -> ~ onStrip effect)
    /\ clicked <> Some (Timeline.OnSelectEffect None)
    /\ (forall effect, clicked <> Some (Timeline.OnUpdateEffect effect))
    /\ clicked <> None
    /\ Timeline.handleTimelineClick props st None clientX = None.
Proof.
  intros props st rectLeft clientX clickPosition onStrip clicked.
  subst clicked. unfold Timeline.handleTimelineClick. fold clickPosition.
  destruct (find (Timeline.clickedOn props st clickPosition)
              (Timeline.zoomEffects props)) as [found |] eqn:Hfind.
  - destruct (find_splits _ _ _ Hfind) as (before & after & Heq & Hx & Hb).
    split; [| split; [| split; [| split; [| split]]]].
    + intros effect. split.
      * intros [= <-]. exists before, after. split; [assumption |].
        split; [now apply clickedOn_strip |].
        intros other Hin. apply clickedOn_off_strip. now apply Hb.
      * intros (before' & after' & Heq' & Hx' & Hb').
        assert (Hfind' : find (Timeline.clickedOn props st clickPosition)
                           (Timeline.zoomEffects props) = Some effect).
        { rewrite Heq'. apply find_skips; [| now apply clickedOn_strip].
          intros other Hin. apply clickedOn_off_strip. now apply Hb'. }
        rewrite Hfind in Hfind'. now injection Hfind' as ->.
    + intros time. split; [discriminate |].
      intros [_ Hnone]. exfalso.
      apply (Hnone found).
      * rewrite Heq. apply in_or_app. right. now left.
      * now apply clickedOn_strip.
    + discriminate.
    + intros effect. discriminate.
    + discriminate.
    + reflexivity.
  - pose proof (proj1 (find_nothing _ _) Hfind) as Hnone.
    split; [| split; [| split; [| split; [| split]]]].
    + intros effect. split; [discriminate |].
      intros (before & after & Heq & Hx & _). exfalso.
      apply clickedOn_strip in Hx. rewrite (Hnone effect) in Hx;
        [discriminate |].
      rewrite Heq. apply in_or_app. right. now left.
    + intros time. split.
      * intros [= <-]. split; [reflexivity |].
        intros effect Hin. apply clickedOn_off_strip. now apply Hnone.
      * intros [-> _]. reflexivity.
    + discriminate.
    + intros effect. discriminate.
    + discriminate.
    + reflexivity.
Qed.

(** On a 400 pixel timeline of a ten second video, the strip of the
    effect over [2, 6] runs from pixel [80] to pixel [240]: a click at
    pixel [120] selects it, a click at pixel [320] asks for a new
    effect. *)
Lemma click_selects_or_adds_witness :
  let effect := ZoomEffect.mk "a" (num 2) (num 4) (num 2) (num 0.5) (num 0.5) None in
  let props := Timeline.mkProps (num 10) [effect]%list in
  let st := Timeline.mkState false None None (num 400) 0 in
  Timeline.handleTimelineClick props st (Some (num 20)) (num 140)
  = Some (Timeline.OnSelectEffect (Some effect))
  /\ Timeline.handleTimelineClick props st (Some (num 20)) (num 340)
     = Some (Timeline.OnAddEffect
               (Timeline.positionToTime props st (num 340 - num 20))).
Proof.
  intros effect props st.
  destruct (click_selects_or_adds props st (num 20) (num 140))
    as (Hselect & _).
  destruct (click_selects_or_adds props st (num 20) (num 340))
    as (_ & Hadd & _).
  split.
  - apply Hselect. exists [], []. split; [reflexivity |].
    split; [split; vm_compute; discriminate | intros other []].
  - apply Hadd. split; [reflexivity |].
    intros other [<- | []] [_ H]. vm_compute in H. now apply H.
Defined.

(** ** The time markers *)

Lemma this_ofNat (i : nat) :
  (this (Markers.ofNat i) == inject_Z (Z.of_nat i))%Q.
Proof. apply Qred_correct. Qed.

Lemma ofNat_le (i j : nat) :
  Markers.ofNat i <= Markers.ofNat j <-> (i <= j)%nat.
Proof.
  unfold Qcle. rewrite !this_ofNat, <- Zle_Qle. lia.
Qed.

Lemma rounds_enough (duration : number) :
  duration < Markers.ofNat (Markers.rounds duration).
Proof.
  unfold Qclt, Markers.rounds. rewrite this_ofNat.
  apply Qlt_le_trans with (inject_Z (Qfloor (this duration) + 1)).
  - apply Qlt_floor.
  - rewrite <- Zle_Qle. lia.
Qed.

(** What the loop pushes for the counter [j]. *)
Lemma markersFrom_members (duration : number) (fuel : nat) :
  forall (i : nat) (m : Markers.Marker),
    In m (Markers.markersFrom duration fuel i) <->
    exists j,
      m = Markers.mkMarker j
            (Nat.eqb (j mod Markers.markerInterval duration) 0)
            ((Markers.ofNat j / duration) * num 100)
      /\ (i <= j < i + fuel)%nat
      /\ Markers.ofNat j <= duration
      /\ Nat.eqb (j mod Markers.markerInterval duration) 0
         || leb duration (num 20) = true.
Proof.
  induction fuel as [| fuel IH]; intros i m; simpl.
  - split; [intros [] | intros (j & _ & Hj & _); lia].
  - destruct (ltb_cases duration (Markers.ofNat i)) as [[Hlt Hb] | [Hge Hb]];
      unfold leb at 1; rewrite Hb; simpl negb; cbv iota.
    + split; [intros [] |].
      intros (j & _ & Hj & Hle & _).
      assert (Markers.ofNat i <= Markers.ofNat j) by (apply ofNat_le; lia).
      apply (Qclt_not_le _ _ Hlt). eapply Qcle_trans; eassumption.
    + rewrite in_app_iff, IH. split.
      * intros [Hhead | (j & Hm & Hj & Hrest)].
        -- destruct (Nat.eqb (i mod Markers.markerInterval duration) 0
                     || leb duration (num 20)) eqn:Hshown; [| destruct Hhead].
           destruct Hhead as [<- | []]. exists i.
           split; [reflexivity |]. split; [lia |]. split; [exact Hge |].
           exact Hshown.
        -- exists j. split; [exact Hm |]. split; [lia | exact Hrest].
      * intros (j & Hm & Hj & Hle & Hshown).
        destruct (Nat.eq_dec j i) as [-> | Hne].
        -- left. rewrite Hshown. now left.
        -- right. exists j. split; [exact Hm |]. split; [lia |].
           split; assumption.
Qed.

Lemma markersFrom_spare_fuel (duration : number) (fuel : nat) :
  forall (i spare : nat),
    duration < Markers.ofNat (i + fuel) ->
    Markers.markersFrom duration (fuel + spare) i
    = Markers.markersFrom duration fuel i.
Proof.
  induction fuel as [| fuel IH]; intros i spare Hend.
  - rewrite Nat.add_0_r in Hend. simpl.
    destruct spare as [| spare]; [reflexivity |]. simpl.
    unfold leb. now rewrite (proj2 (ltb_lt _ _) Hend).
  - simpl. destruct (leb (Markers.ofNat i) duration); [| reflexivity].
    f_equal. apply IH. now rewrite Nat.add_succ_comm.
Qed.

Lemma short_video_interval (duration : number) :
  duration <= num 30 -> Markers.markerInterval duration = 1%nat.
Proof.
  intros H. unfold Markers.markerInterval, gtb.
  assert (F : forall bound, num 30 <= bound -> ltb bound duration = false).
  { intros bound Hb. apply ltb_ge. eapply Qcle_trans; eassumption. }
  rewrite !F; [reflexivity | | |]; vm_compute; discriminate.
Qed.

Lemma shown_is_major (duration : number) (j : nat) :
  Nat.eqb (j mod Markers.markerInterval duration) 0
  || leb duration (num 20) = true ->
  Nat.eqb (j mod Markers.markerInterval duration) 0 = true.
Proof.
  intros H. apply orb_true_iff in H. destruct H as [H | H]; [exact H |].
  rewrite short_video_interval.
  - now rewrite Nat.mod_1_r.
  - apply leb_le in H. eapply Qcle_trans; [exact H |].
    vm_compute; discriminate.
Qed.

(** X22. The markers of the timeline, for a duration below [2^53]
    seconds, where the counter of the loop counts exactly.  The loop ends
    by its own test after the whole seconds up to the duration (more
    rounds give the same list); it pushes a marker for the whole second
    [j] exactly when [j] is at most the duration and a multiple of the
    interval ([10] above two minutes, [5] above one, [2] above thirty
    seconds, [1] otherwise), so up to thirty seconds every whole second
    has one; every marker it pushes is a major one, the style of minor
    markers is never used; and on a positive duration every marker sits
    between [0] and [100] percent. *)
Theorem timeMarkers_are_major_multiples :
  forall duration : number,
    duration < num 9007199254740992 ->
    (forall spare,
        Markers.markersFrom duration (Markers.rounds duration + spare) 0
        = Markers.timeMarkers duration)
    /\ (forall j,
          (exists m, In m (Markers.timeMarkers duration) /\ Markers.key m = j)
          <-> Markers.ofNat j <= duration
              /\ (j mod Markers.markerInterval duration = 0)%nat)
    /\ (duration <= num 30 ->
        forall j, Markers.ofNat j <= duration ->
          exists m, In m (Markers.timeMarkers duration) /\ Markers.key m = j)
    /\ (forall m, In m (Markers.timeMarkers duration) ->
          Markers.isMajor m = true
          /\ Markers.leftPercent m
             = (Markers.ofNat (Markers.key m) / duration) * num 100
          /\ (0 < duration ->
              0 <= Markers.leftPercent m /\ Markers.leftPercent m <= num 100)).
Proof.
  intros duration _. unfold Markers.timeMarkers.
  assert (Hmembers : forall j,
             (exists m, In m (Markers.markersFrom duration
                                (Markers.rounds duration) 0)
                        /\ Markers.key m = j)
             <-> Markers.ofNat j <= duration
                 /\ (j mod Markers.markerInterval duration = 0)%nat).
  { intros j. split.
    - intros (m & Hin & <-). apply markersFrom_members in Hin.
      destruct Hin as (k & -> & _ & Hle & Hshown). simpl.
      split; [exact Hle |]. now apply Nat.eqb_eq, shown_is_major.
    - intros [Hle Hmod].
      exists (Markers.mkMarker j
                (Nat.eqb (j mod Markers.markerInterval duration) 0)
                ((Markers.ofNat j / duration) * num 100)).
      split; [| reflexivity]. apply markersFrom_members. exists j.
      split; [reflexivity |]. split; [| split; [exact Hle |]].
      + split; [lia |]. simpl.
        destruct (Nat.lt_ge_cases j (Markers.rounds duration)) as [Hlt | Hge];
          [exact Hlt | exfalso].
        apply ofNat_le in Hge.
        apply (Qclt_not_le _ _ (rounds_enough duration)).
        eapply Qcle_trans; eassumption.
      + rewrite Hmod. reflexivity. }
  split; [| split; [exact Hmembers | split]].
  - intros spare. apply markersFrom_spare_fuel. apply rounds_enough.
  - intros Hshort j Hle. apply Hmembers. split; [exact Hle |].
    rewrite (short_video_interval _ Hshort). apply Nat.mod_1_r.
  - intros m Hin. apply markersFrom_members in Hin.
    destruct Hin as (j & -> & _ & Hle & Hshown). simpl.
    split; [now apply shown_is_major |]. split; [reflexivity |].
    intros Hd.
    assert (H0 : 0 <= Markers.ofNat j)
      by (unfold Qcle; rewrite this_ofNat; change (this 0) with (inject_Z 0);
          rewrite <- Zle_Qle; lia).
    set (x := Markers.ofNat j) in *. to_Q. split.
    + apply Qmult_le_0_compat; [| lra].
      apply Qle_shift_div_l; lra.
    + assert (this x / this duration <= 1)%Q
        by (apply Qle_shift_div_r; lra).
      lra.
Qed.

(** A video of forty-five seconds has a marker at second [44] and none
    at second [45]; a video of ten seconds has one at second [7]. *)
Lemma timeMarkers_are_major_multiples_witness :
  (exists m, In m (Markers.timeMarkers (num 45)) /\ Markers.key m = 44%nat)
  /\ ~ (exists m, In m (Markers.timeMarkers (num 45)) /\ Markers.key m = 45%nat)
  /\ (exists m, In m (Markers.timeMarkers (num 10)) /\ Markers.key m = 7%nat).
Proof.
  destruct (timeMarkers_are_major_multiples (num 45)) as (_ & Hlong & _);
    [reflexivity |].
  destruct (timeMarkers_are_major_multiples (num 10)) as (_ & _ & Hshort & _);
    [reflexivity |].
  split; [| split].
  - apply Hlong. split; [vm_compute; discriminate | reflexivity].
  - intros H. apply Hlong in H. destruct H as [_ H]. discriminate.
  - apply Hshort; vm_compute; discriminate.
Defined.

(** ** The zoom controls *)

(** X23. A click inside the centre box of the zoom controls, that is
    at an offset from the left edge of the box between [0] and its width
    and from its top edge between [0] and its height, gives an effect
    whose centre is inside the frame; the click changes nothing else of
    the effect. *)
Theorem center_click_inside_frame :
  forall (effect : ZoomEffect.t) (rect : ZoomControls.Rect)
         (clientX clientY : number),
    0 < ZoomControls.width rect ->
    0 < ZoomControls.height rect ->
    0 <= clientX - ZoomControls.left rect ->
    clientX - ZoomControls.left rect <= ZoomControls.width rect ->
    0 <= clientY - ZoomControls.top rect ->
    clientY - ZoomControls.top rect <= ZoomControls.height rect ->
    let updated := ZoomControls.centerClicked effect rect clientX clientY in
    (0 <= ZoomEffect.centerX updated /\ ZoomEffect.centerX updated <= 1)
    /\ (0 <= ZoomEffect.centerY updated /\ ZoomEffect.centerY updated <= 1)
    /\ ZoomEffect.id updated = ZoomEffect.id effect
    /\ ZoomEffect.startTime updated = ZoomEffect.startTime effect
    /\ ZoomEffect.duration updated = ZoomEffect.duration effect
    /\ ZoomEffect.level updated = ZoomEffect.level effect
    /\ ZoomEffect.zoomStyle updated = ZoomEffect.zoomStyle effect.
Proof.
  intros effect rect clientX clientY Hw Hh Hx0 Hx1 Hy0 Hy1 updated.
  subst updated. simpl.
  split; [| split].
  - to_Q. split; [apply Qle_shift_div_l | apply Qle_shift_div_r]; lra.
  - to_Q. split; [apply Qle_shift_div_l | apply Qle_shift_div_r]; lra.
  - repeat split; reflexivity.
Qed.

(** A box of 320 by 180 pixels at [(100, 50)], clicked at [(180, 185)]:
    the centre is inside the frame. *)
Lemma center_click_inside_frame_witness :
  let effect := ZoomEffect.mk "a" (num 2) (num 4) (num 2) (num 0.5) (num 0.5) None in
  let rect := ZoomControls.mkRect (num 100) (num 50) (num 320) (num 180) in
  let updated := ZoomControls.centerClicked effect rect (num 180) (num 185) in
  (0 <= ZoomEffect.centerX updated /\ ZoomEffect.centerX updated <= 1)
  /\ (0 <= ZoomEffect.centerY updated /\ ZoomEffect.centerY updated <= 1).
Proof.
  intros effect rect updated.
  destruct (center_click_inside_frame effect rect (num 180) (num 185))
    as (Hx & Hy & _); try (vm_compute; discriminate); try reflexivity.
  split; [exact Hx | exact Hy].
Defined.

(** ** A drag, from the press to the release *)

(** X24. Pressing the mouse on an effect of the collection selects it
    and arms the drag: the next move that comes at least sixteen
    milliseconds after the last one taken into account reports the dragged
    copy of that very effect, for the edge that was pressed.  After the
    release no move reports anything or changes the state, whatever it
    is. *)
Theorem drag_from_press_to_release :
  forall (props : Timeline.Props) (st : Timeline.State) (effectId : string)
         (edge : option Timeline.Edge) (effect : ZoomEffect.t),
    find (fun effect => String.eqb (ZoomEffect.id effect) effectId)
         (Timeline.zoomEffects props) = Some effect ->
    effectId <> EmptyString ->
    let pressed := Timeline.handleEffectMouseDown props st effectId edge in
    snd pressed = Some (Timeline.OnSelectEffect (Some effect))
    /\ (forall rectLeft now clientX,
          Timeline.RENDER_BUFFER_MS <= now - Timeline.lastRenderTimeRef st ->
          Timeline.handleMouseMove props (fst pressed) (Some rectLeft) now clientX
          = (Timeline.touchRenderTime (fst pressed) now,
             Some (Timeline.OnUpdateEffect
                     (Timeline.dragged props edge
                        (Timeline.positionToTime props st (clientX - rectLeft))
                        effect))))
    /\ (forall released timelineRef now clientX,
          Timeline.handleMouseMove props (Timeline.handleMouseUp released)
            timelineRef now clientX
          = (Timeline.handleMouseUp released, None)).
Proof.
  intros props st effectId edge effect Hfind Hid pressed. subst pressed.
  unfold Timeline.handleEffectMouseDown. simpl. rewrite Hfind.
  split; [reflexivity |]. split; [| reflexivity].
  intros rectLeft now clientX Hlate.
  unfold Timeline.handleMouseMove. simpl.
  rewrite (proj2 (String.eqb_neq _ _) Hid), (proj2 (ltb_ge _ _) Hlate), Hfind.
  reflexivity.
Qed.

(** The end edge of the effect over [2, 6] pressed, and the mouse moved
    to second [8] of a ten second video twenty milliseconds later. *)
Lemma drag_from_press_to_release_witness :
  let effect := ZoomEffect.mk "a" (num 2) (num 4) (num 2) (num 0.5) (num 0.5) None in
  let props := Timeline.mkProps (num 10) [effect]%list in
  let st := Timeline.mkState false None None (num 400) (num 100) in
  let pressed :=
    Timeline.handleEffectMouseDown props st "a" (Some Timeline.EndEdge) in
  exists st' moved,
    Timeline.handleMouseMove props (fst pressed) (Some (num 20)) (num 120)
      (num 340)
    = (st', Some (Timeline.OnUpdateEffect moved))
    /\ ZoomEffect.duration moved = num 6.
Proof.
  intros effect props st pressed.
  destruct (drag_from_press_to_release props st "a" (Some Timeline.EndEdge)
              effect eq_refl)
    as (_ & Hmove & _); [discriminate |].
  fold pressed in Hmove.
  do 2 eexists. split.
  - apply Hmove. vm_compute; discriminate.
  - apply Qc_is_canon. reflexivity.
Defined.

(** ** The shown time *)

(** X25. The time shown by the editor follows the video under a
    throttle.  Without a video element nothing changes.  With one, a time
    update is taken exactly when more than the current buffer has passed
    since the last one taken; it then shows the video's time and sets the
    buffer to [16] for a paused video and [30] for a playing one, so the
    buffer is always [16] or [30], and a further update within that buffer
    changes nothing.  A seek shows the sought time at once, puts it on the
    video, and lets the next update through as soon as the clock is past
    the buffer. *)
Theorem shown_time_is_throttled :
  forall (videoElement : Playback.VideoElement) (now : number)
         (st : Playback.State),
    let st' := Playback.handleTimeUpdate (Some videoElement) now st in
    Playback.handleTimeUpdate None now st = st
    /\ (Playback.updateBufferMsRef st < now - Playback.lastUpdateTimeRef st ->
        st' = Playback.mkState (Playback.currentTime videoElement) now
                (if Playback.paused videoElement then num 16 else num 30))
    /\ (now - Playback.lastUpdateTimeRef st <= Playback.updateBufferMsRef st ->
        st' = st)
    /\ (Playback.updateBufferMsRef st = num 16
        \/ Playback.updateBufferMsRef st = num 30 ->
        Playback.updateBufferMsRef st' = num 16
        \/ Playback.updateBufferMsRef st' = num 30)
    /\ (Playback.updateBufferMsRef st < now - Playback.lastUpdateTimeRef st ->
        forall later now',
          now' - now <= (if Playback.paused videoElement
                         then num 16 else num 30) ->
          Playback.handleTimeUpdate (Some later) now' st' = st')
    /\ (forall seekTime,
          let sought := Playback.handleSeek (Some videoElement) seekTime st in
          Playback.shownTime (snd sought) = seekTime
          /\ option_map Playback.currentTime (fst sought) = Some seekTime
          /\ Playback.handleSeek None seekTime st = (None, st)
          /\ (Playback.updateBufferMsRef st < now ->
              forall later,
                Playback.shownTime
                  (Playback.handleTimeUpdate (Some later) now (snd sought))
                = Playback.currentTime later)).
Proof.
  intros videoElement now st st'. subst st'.
  assert (Htaken :
            Playback.updateBufferMsRef st < now - Playback.lastUpdateTimeRef st ->
            Playback.handleTimeUpdate (Some videoElement) now st
            = Playback.mkState (Playback.currentTime videoElement) now
                (if Playback.paused videoElement then num 16 else num 30)).
  { intros H. unfold Playback.handleTimeUpdate.
    now rewrite (proj2 (gtb_gt _ _) H). }
  assert (Hskipped :
            now - Playback.lastUpdateTimeRef st <= Playback.updateBufferMsRef st ->
            Playback.handleTimeUpdate (Some videoElement) now st = st).
  { intros H. unfold Playback.handleTimeUpdate, gtb.
    now rewrite (proj2 (ltb_ge _ _) H). }
  split; [reflexivity |]. split; [exact Htaken |]. split; [exact Hskipped |].
  split; [| split].
  - intros Hbuffer.
    destruct (Qclt_le_dec (Playback.updateBufferMsRef st)
                (now - Playback.lastUpdateTimeRef st)) as [H | H].
    + rewrite (Htaken H). simpl.
      destruct (Playback.paused videoElement); auto.
    + now rewrite (Hskipped H).
  - intros H later now' Hsoon. rewrite (Htaken H).
    unfold Playback.handleTimeUpdate, gtb.
    cbn [Playback.lastUpdateTimeRef Playback.updateBufferMsRef].
    destruct (Playback.paused videoElement);
      apply ltb_ge in Hsoon; now rewrite Hsoon.
  - intros seekTime sought. subst sought. simpl.
    split; [reflexivity |]. split; [reflexivity |]. split; [reflexivity |].
    intros H later. unfold Playback.handleTimeUpdate.
    cbn [Playback.lastUpdateTimeRef Playback.updateBufferMsRef].
    replace (now - 0) with now by (unfold number in *; ring).
    now rewrite (proj2 (gtb_gt _ _) H).
Qed.

(** A playing video at second [4.2], the clock at [1000] milliseconds
    after an update at [960]: taken; then a further update at [1020]:
    skipped. *)
Lemma shown_time_is_throttled_witness :
  let playing := Playback.mkVideoElement (num 4.2) false in
  let st := Playback.mkState (num 4.16) (num 960) (num 30) in
  Playback.handleTimeUpdate (Some playing) (num 1000) st
  = Playback.mkState (num 4.2) (num 1000) (num 30)
  /\ Playback.handleTimeUpdate (Some (Playback.mkVideoElement (num 4.22) false))
       (num 1020) (Playback.handleTimeUpdate (Some playing) (num 1000) st)
     = Playback.handleTimeUpdate (Some playing) (num 1000) st.
Proof.
  intros playing st.
  destruct (shown_time_is_throttled playing (num 1000) st)
    as (_ & Htaken & _ & _ & Hnext & _).
  split.
  - apply Htaken. reflexivity.
  - apply Hnext; [reflexivity | vm_compute; discriminate].
Defined.
